(** * ghstack: the EdenShell command translator ([ghstack/eden_shell.py])

    A shallow embedding of [EdenShell] and [match_args], and the properties
    of the command translation that the specification of the repository
    states about them.

    Python strings are [string] (sequences of [ascii], the encoded bytes:
    the source searches them for the one-byte characters [:] and [/] only
    and slices at the positions found); argument lists are [list string];
    dictionaries are [gmap string string]; subprocess calls and exceptions
    are threaded through a small state-and-exception monad over a [world]
    that records every subprocess call. *)

From Stdlib Require Import ZArith Ascii String List Lia.
From stdpp Require Import base option list strings gmap.

Local Open Scope string_scope.
Local Open Scope list_scope.

(** ** Python string primitives used by the source *)

Module PyStr.

(** [s[:n]] for [0 <= n]. *)
Fixpoint take (n : nat) (s : string) : string :=
  match n, s with
  | S n', String a s' => String a (take n' s')
  | _, _ => EmptyString
  end.

(** [s[n:]] for [0 <= n]. *)
Fixpoint drop (n : nat) (s : string) : string :=
  match n, s with
  | S n', String _ s' => drop n' s'
  | _, _ => s
  end.

(** [s.find(c)] for a one-character [c]: the lowest index, if any. *)
Fixpoint find (c : ascii) (s : string) : option nat :=
  match s with
  | EmptyString => None
  | String a s' => if Ascii.eqb a c then Some 0 else S <$> find c s'
  end.

(** [s.rfind(c)] for a one-character [c]: the highest index, or [-1]. *)
Fixpoint rfind (c : ascii) (s : string) : Z :=
  match s with
  | EmptyString => (-1)%Z
  | String a s' =>
      let r := rfind c s' in
      if (r =? -1)%Z then (if Ascii.eqb a c then 0%Z else (-1)%Z)
      else (r + 1)%Z
  end.

(** [s.startswith(p)]. *)
Definition startswith (p s : string) : bool := String.prefix p s.

End PyStr.

(** ** Values and exceptions *)

(** The values a pattern element can be.  [PyDict] carries the identity of
    the dictionary object: [WILDCARD_ARG = {}] is compared with [is]. *)
Inductive pyval : Type :=
| PyStr_ (s : string)
| PyInt (n : Z)
| PyNone
| PyDict (addr : nat).

(** The exceptions the translator can raise or let through.  The f-string
    messages are kept structured: the constructor is the message text, its
    argument the value interpolated into it. *)
Inductive exn : Type :=
| ExpectedExactly3Args (args : list string)
    (* Exception(f"expected exactly 3 args, but was: {args}") *)
| ExpectedMoreArgs (args : list string)
    (* Exception(f"expected more args: {args}") *)
| UnknownPatternType (pattern_arg : pyval)
    (* Exception(f"Unknown pattern type: {type(pattern_arg)}: {pattern_arg}") *)
| ValueError_substring_not_found
    (* str.index *)
| IndexError
    (* a list index out of range *)
| CalledProcessError (argv : list string).
    (* a subprocess exited with a non-zero status *)

Inductive result (A : Type) : Type :=
| Ok (a : A)
| Raise (e : exn).
Arguments Ok {A} a.
Arguments Raise {A} e.

(** ** The matcher *)

Definition WILDCARD_ARG : pyval := PyDict 0.

(** [x is WILDCARD_ARG]: object identity with the module-level dictionary. *)
Definition is_WILDCARD_ARG (x : pyval) : bool :=
  match x with
  | PyDict addr => Nat.eqb addr 0
  | _ => false
  end.

(** The [for pattern_arg, arg in zip(pattern, args)] loop of [match_args]. *)
Fixpoint match_args_loop (pattern : list pyval) (args : list string)
  : result bool :=
  match pattern, args with
  | pattern_arg :: pattern', arg :: args' =>
      if is_WILDCARD_ARG pattern_arg then match_args_loop pattern' args'
      else match pattern_arg with
           | PyStr_ s =>
               if negb (String.eqb s arg) then Ok false
               else match_args_loop pattern' args'
           | _ => Raise (UnknownPatternType pattern_arg)
           end
  | _, _ => Ok true
  end.

Definition match_args (pattern : list pyval) (args : list string)
  : result bool :=
  if Nat.ltb (length args) (length pattern) then Ok false
  else match_args_loop pattern args.

(** ** The world: process environment, dictionary objects, subprocesses *)

(** Keyword settings handed to [Shell.sh] and [Shell.git]. *)
Record Kwargs : Type := MkKwargs {
  kw_cwd : option string;
  kw_quiet : option bool;
  kw_env : option (gmap string string);
}.

(** One subprocess call: the argument vector and the keyword settings
    (a snapshot of the [env] dictionary at the time of the call). *)
Record call : Type := MkCall {
  call_argv : list string;
  call_kwargs : Kwargs;
}.

(** References to dictionary objects: [os.environ] itself, or a dictionary
    allocated later. *)
Inductive dictref : Type :=
| OsEnviron
| Obj (addr : nat).

Record world : Type := MkWorld {
  os_environ : gmap string string;
  heap : list (gmap string string);
  calls : list call;
  (* what a subprocess prints, given the calls made before it;
     [None] is a non-zero exit status *)
  respond : list call -> call -> option string;
}.

Definition M (A : Type) : Type := world -> result A * world.

Definition ret {A} (a : A) : M A := fun w => (Ok a, w).

Definition raise {A} (e : exn) : M A := fun w => (Raise e, w).

Definition bind {A B} (c : M A) (k : A -> M B) : M B :=
  fun w =>
    match c w with
    | (Ok a, w') => k a w'
    | (Raise e, w') => (Raise e, w')
    end.

Notation "'let!' x ':=' c 'in' k" := (bind c (fun x => k))
  (at level 10, x name, c at level 100, k at level 200).

Definition lift {A} (r : result A) : M A := fun w => (r, w).

(** [dict(d)]: a new dictionary object with the items of [d]. *)
Definition dict_copy (d : dictref) : M dictref :=
  fun w =>
    let items :=
      match d with
      | OsEnviron => os_environ w
      | Obj addr => default ∅ (heap w !! addr)
      end in
    (Ok (Obj (length (heap w))),
     MkWorld (os_environ w) (heap w ++ [items]) (calls w) (respond w)).

(** [d[k] = v]: the object [d] refers to is updated in place. *)
Definition dict_setitem (d : dictref) (k v : string) : M unit :=
  fun w =>
    match d with
    | OsEnviron =>
        (Ok tt, MkWorld (<[k:=v]> (os_environ w)) (heap w) (calls w) (respond w))
    | Obj addr =>
        (Ok tt, MkWorld (os_environ w) (alter (insert k v) addr (heap w))
                        (calls w) (respond w))
    end.

(** The items of the object [d] refers to, when it is passed to a call. *)
Definition dict_items (d : dictref) : M (gmap string string) :=
  fun w =>
    match d with
    | OsEnviron => (Ok (os_environ w), w)
    | Obj addr => (Ok (default ∅ (heap w !! addr)), w)
    end.

(** [l[i]]: [IndexError] out of range. *)
Definition list_getitem (l : list string) (i : nat) : M string :=
  match l !! i with
  | Some x => ret x
  | None => raise IndexError
  end.

(** [l[i] = x]: [IndexError] out of range. *)
Definition list_setitem (l : list string) (i : nat) (x : string)
  : M (list string) :=
  if Nat.ltb i (length l) then ret (<[i:=x]> l) else raise IndexError.

(** [s.index(c)] for a one-character [c]: [ValueError] when absent. *)
Definition str_index (s : string) (c : ascii) : M nat :=
  match PyStr.find c s with
  | Some i => ret i
  | None => raise ValueError_substring_not_found
  end.

(** ** The base class [ghstack.shell.Shell] *)

(** Modelled from the spec: [Shell.sh], the command runner of the base class
    (its file is not among the sources).  It runs one subprocess with the
    given argument vector and keyword settings and returns the captured
    standard output, or raises when the process exits with a non-zero
    status.  The call is recorded in [calls]. *)
Definition sh (argv : list string) (kwargs : Kwargs) : M string :=
  fun w =>
    let c := MkCall argv kwargs in
    let w' := MkWorld (os_environ w) (heap w) (calls w ++ [c]) (respond w) in
    match respond w (calls w) c with
    | Some out => (Ok out, w')
    | None => (Raise (CalledProcessError argv), w')
    end.

(** Whitespace for [str.rstrip()], on single-byte characters. *)
Definition is_space (a : ascii) : bool :=
  let n := nat_of_ascii a in
  (Nat.leb 9 n && Nat.leb n 13) || (Nat.leb 28 n && Nat.leb n 32).

(** Modelled from the spec: [Shell._maybe_rstrip] on a string, the captured
    output trimmed of trailing whitespace. *)
Fixpoint _maybe_rstrip (s : string) : string :=
  match s with
  | EmptyString => EmptyString
  | String a s' =>
      match _maybe_rstrip s' with
      | EmptyString => if is_space a then EmptyString else String a EmptyString
      | r => String a r
      end
  end.

(** The result of [git]: a string, or Python's [None]. *)
Definition shell_ret : Type := option string.

(** Modelled from the spec: [Shell.git], the generic command runner the
    translator delegates to: it runs [git] with the given arguments and
    keyword settings and returns the trimmed output. *)
Definition Shell_git (args : list string) (kwargs : Kwargs) : M shell_ret :=
  let! out := sh ("git" :: args) kwargs in
  ret (Some (_maybe_rstrip out)).

(** ** [EdenShell] *)

Definition EDEN_CLI : string := "hg".
Definition EDEN_PLAIN_ENV_VAR : string := "HGPLAIN".

Record Config : Type := MkConfig {
  remote_name : string;
}.

Record EdenShell : Type := MkEdenShell {
  conf : Config;
  git_dir : string;
}.

(** [self._run_eden_command(args)]; [self] is used for [sh] and
    [_maybe_rstrip] only. *)
Definition _run_eden_command (args : list string) : M string :=
  let! env := dict_copy OsEnviron in
  let! _ := dict_setitem env EDEN_PLAIN_ENV_VAR "1" in
  let full_args := ([EDEN_CLI] ++ args)%list in
  let! env_items := dict_items env in
  let! out := sh full_args (MkKwargs None None (Some env_items)) in
  ret (_maybe_rstrip out).

Definition dquote : string := String "034"%char EmptyString.

(** [EdenShell.__init__]; the arguments of the base class and the debug
    log line have no part in the translation. *)
Definition __init__ (conf : Config) : M EdenShell :=
  let! git_dir :=
    _run_eden_command [
      "debugshell";
      "-c";
      "print(repo.svfs.join(repo.svfs.readutf8(" +:+ dquote +:+ "gitdir"
        +:+ dquote +:+ ")))"
    ] in
  ret (MkEdenShell conf git_dir).

Definition _get_origin : M string :=
  _run_eden_command ["config"; "paths.default"].

(** The body of the [for index, arg in enumerate(args)] loop of
    [_rewrite_args], run for [n] more elements from position [index]; the
    list is updated in place while it is traversed. *)
Fixpoint rewrite_loop (top : string) (n index : nat) (args : list string)
  : list string :=
  match n with
  | 0 => args
  | S n' =>
      match args !! index with
      | None => args
      | Some arg =>
          let args := if String.eqb arg "HEAD" then <[index:=top]> args
                      else args in
          rewrite_loop top n' (S index) args
      end
  end.

Definition _rewrite_args (_args : list string) : M (list string) :=
  let args := _args in
  if existsb (String.eqb "HEAD") args then
    let! top := _run_eden_command ["log"; "-r"; "max(.::)"; "-T"; "{node}"] in
    ret (rewrite_loop top (length args) 0 args)
  else ret args.

(** The body of the [for arg in branch_args] loop of [_push_branches]: the
    push of one [<hash>:<refspec>] mapping. *)
Definition push_branch (arg : string) : M string :=
  let! split_point := str_index arg ":"%char in
  let commit_hash := PyStr.take split_point arg in
  let refspec := PyStr.drop (split_point + 1) arg in
  let prefix := "refs/heads/" in
  let refspec := if PyStr.startswith prefix refspec
                 then PyStr.drop (String.length prefix) refspec
                 else refspec in
  let! _ := _run_eden_command ["pull"; "-r"; commit_hash] in
  let full_args := ["push"; "-r"; commit_hash; "--to"; refspec] in
  let full_args := (full_args ++ ["--force"])%list in
  _run_eden_command full_args.

Fixpoint push_branches_loop (branch_args : list string)
  (last_result : shell_ret) : M shell_ret :=
  match branch_args with
  | [] => ret last_result
  | arg :: branch_args' =>
      let! last_result := push_branch arg in
      push_branches_loop branch_args' (Some last_result)
  end.

Definition _push_branches (is_force : bool) (branch_args : list string)
  : M shell_ret :=
  push_branches_loop branch_args None.

(** The statements of [git] after the [if]/[elif] chain. *)
Definition git_pass_through (self : EdenShell) (args : list string)
  (kwargs : Kwargs) : M shell_ret :=
  let! git_args := _rewrite_args args in
  let full_args := (["--git-dir"; git_dir self] ++ git_args)%list in
  Shell_git full_args kwargs.

Definition git (self : EdenShell) (_args : list string) (kwargs : Kwargs)
  : M shell_ret :=
  let args := _args in
  let remote_name := remote_name (conf self) in
  let! m := lift (match_args
                    [PyStr_ "remote"; PyStr_ "get-url"; PyStr_ remote_name]
                    args) in
  if m then
    let! origin := _get_origin in ret (Some origin)
  else
  let! m := lift (match_args
                    [PyStr_ "fetch"; PyStr_ "--prune"; PyStr_ remote_name]
                    args) in
  if m then
    if negb (Nat.eqb (length args) 3) then raise (ExpectedExactly3Args args)
    else
      let! origin := _get_origin in
      let! args := list_setitem args 2 origin in
      let args := (args ++ ["+refs/heads/*:refs/remotes/origin/*"])%list in
      git_pass_through self args kwargs
  else
  let! m := lift (match_args
                    [PyStr_ "merge-base"; WILDCARD_ARG; PyStr_ "HEAD"]
                    args) in
  if m then
    let! remote := list_getitem args 1 in
    let index := PyStr.rfind "/"%char remote in
    let remote := if negb (index =? -1)%Z
                  then PyStr.drop (Z.to_nat (index + 1)) remote
                  else remote in
    let! node :=
      _run_eden_command
        ["log"; "-T"; "{node}"; "-r"; "ancestor(., " +:+ remote +:+ ")"] in
    ret (Some node)
  else
  let! m := lift (match_args [PyStr_ "push"; PyStr_ remote_name] args) in
  if m then
    if Nat.eqb (length args) 2 then raise (ExpectedMoreArgs args)
    else
      let! a2 := list_getitem args 2 in
      let is_force := String.eqb a2 "--force" in
      let branch_args := drop (if is_force then 3 else 2) args in
      _push_branches is_force branch_args
  else
  git_pass_through self args kwargs.

(** ** The properties, in the words of the specification *)

(** The patterns of [git], by name. *)
Definition remote_get_url_pattern (remote_name : string) : list pyval :=
  [PyStr_ "remote"; PyStr_ "get-url"; PyStr_ remote_name].
Definition fetch_pattern (remote_name : string) : list pyval :=
  [PyStr_ "fetch"; PyStr_ "--prune"; PyStr_ remote_name].
Definition merge_base_pattern : list pyval :=
  [PyStr_ "merge-base"; WILDCARD_ARG; PyStr_ "HEAD"].
Definition push_pattern (remote_name : string) : list pyval :=
  [PyStr_ "push"; PyStr_ remote_name].

(** A pattern element of a defined kind: the wildcard marker or a literal
    string. *)
Definition known_kind (p : pyval) : Prop :=
  p = WILDCARD_ARG \/ exists s, p = PyStr_ s.

(** The matching rule of the data model: the candidate is at least as long
    as the pattern, and every non-wildcard element of the pattern equals
    the candidate element at the same position. *)
Definition spec_matches (pattern : list pyval) (args : list string) : Prop :=
  length pattern <= length args /\
  forall i p, pattern !! i = Some p -> p <> WILDCARD_ARG ->
              exists a, args !! i = Some a /\ p = PyStr_ a.

(** No pattern of [git] matches: the default case. *)
Definition falls_through (self : EdenShell) (args : list string) : Prop :=
  match_args (remote_get_url_pattern (remote_name (conf self))) args = Ok false /\
  match_args (fetch_pattern (remote_name (conf self))) args = Ok false /\
  match_args merge_base_pattern args = Ok false /\
  match_args (push_pattern (remote_name (conf self))) args = Ok false.

(** Every [HEAD] token replaced by [top], the other elements kept. *)
Definition spec_replace_HEAD (top : string) (args : list string)
  : list string :=
  map (fun a => if decide (a = "HEAD") then top else a) args.

(** Run [f] on every element in order and collect the outputs. *)
Fixpoint for_each {A B} (f : A -> M B) (l : list A) : M (list B) :=
  match l with
  | [] => ret []
  | x :: l' => let! y := f x in let! ys := for_each f l' in ret (y :: ys)
  end.

(** The push case in the words of the specification: the sub-procedure once
    per mapping, in order; the output of the last one is the result. *)
Definition spec_push_all (mappings : list string) : M shell_ret :=
  let! outputs := for_each push_branch mappings in
  ret (last outputs).

(** The rewrite of the default case, applied [n] times in a row. *)
Fixpoint rewrite_times (n : nat) (args : list string) : M (list string) :=
  match n with
  | 0 => ret args
  | S n' => let! args' := _rewrite_args args in rewrite_times n' args'
  end.

(** The call [_run_eden_command args] makes when the process environment
    is [environ]. *)
Definition eden_call (environ : gmap string string) (args : list string)
  : call :=
  MkCall (EDEN_CLI :: args)
         (MkKwargs None None (Some (<[EDEN_PLAIN_ENV_VAR:="1"]> environ))).

(** A call of the backing tool carries the process environment [environ]
    with the plain-output variable set. *)
Definition plain_env (environ : gmap string string) (c : call) : Prop :=
  head (call_argv c) = Some EDEN_CLI ->
  exists env, kw_env (call_kwargs c) = Some env /\
              env !! EDEN_PLAIN_ENV_VAR = Some "1" /\
              forall k, k <> EDEN_PLAIN_ENV_VAR -> env !! k = environ !! k.

(** An operation that leaves [os.environ] and the existing dictionary
    objects alone, and whose calls of the backing tool are all made with
    [plain_env]. *)
Definition keeps_environ {A} (m : M A) : Prop :=
  forall w,
    os_environ (snd (m w)) = os_environ w /\
    (exists objs, heap (snd (m w)) = (heap w ++ objs)%list) /\
    (exists new, calls (snd (m w)) = (calls w ++ new)%list /\
                 Forall (plain_env (os_environ w)) new).

(** The claim that [git] fails on [args] with the argument-count error and
    without any subprocess call. *)
Definition fails_for_arg_count (self : EdenShell) (args : list string)
  (kwargs : Kwargs) (w : world) : Prop :=
  (exists e, fst (git self args kwargs w) = Raise e) /\
  calls (snd (git self args kwargs w)) = calls w.

(** ** A concrete world *)

Definition newline : string := String "010"%char EmptyString.

(** A backing tool that answers every query and a [git] that succeeds. *)
Definition respond0 (history : list call) (c : call) : option string :=
  match call_argv c with
  | "hg" :: "config" :: _ => Some ("https://example.org/r.git" +:+ newline)
  | "hg" :: "log" :: "-r" :: _ => Some ("f00d" +:+ newline)
  | "hg" :: "log" :: "-T" :: _ => Some ("beef" +:+ newline)
  | "hg" :: "pull" :: _ => Some ""
  | "hg" :: "push" :: _ => Some ("pushed" +:+ newline)
  | "git" :: _ => Some ("done" +:+ newline)
  | _ => None
  end.

Definition world0 : world :=
  MkWorld {[ "PATH" := "/usr/bin" ]} [] [] respond0.

Definition self0 : EdenShell := MkEdenShell (MkConfig "origin") "/repo/.git".

Definition kwargs0 : Kwargs := MkKwargs None None None.

(** ** Further properties of the translator *)

(** The branch name the merge-base case of [git] derives from the remote
    ref in [args[1]]: the expression bound to [remote] there. *)
Definition merge_base_branch (remote : string) : string :=
  let index := PyStr.rfind "/"%char remote in
  if negb (index =? -1)%Z
  then PyStr.drop (Z.to_nat (index + 1)) remote
  else remote.

(** An operation that raises nothing but exceptions with property [P]. *)
Definition raises_only (P : exn -> Prop) {A} (m : M A) : Prop :=
  forall w e, fst (m w) = Raise e -> P e.

(** The exceptions of [git] on the argument list [args]. *)
Definition git_exn (args : list string) (e : exn) : Prop :=
  e = ExpectedExactly3Args args \/
  e = ExpectedMoreArgs args \/
  e = ValueError_substring_not_found \/
  exists argv, e = CalledProcessError argv.

(** A call of the backing tool as [_run_eden_command] makes it. *)
Definition is_eden_call (environ : gmap string string) (c : call) : Prop :=
  exists args, c = eden_call environ args.

(** A call of [git] on the repository of [self], with the keyword settings
    of the caller. *)
Definition is_git_call (self : EdenShell) (kwargs : Kwargs) (c : call)
  : Prop :=
  exists rest,
    c = MkCall ("git" :: "--git-dir" :: git_dir self :: rest) kwargs.

(** An operation whose subprocess calls are all calls of the backing tool,
    and which leaves [os.environ] alone. *)
Definition eden_only {A} (m : M A) : Prop :=
  forall w,
    os_environ (snd (m w)) = os_environ w /\
    exists hgs, calls (snd (m w)) = calls w ++ hgs /\
                Forall (is_eden_call (os_environ w)) hgs.

(** An operation whose subprocess calls are calls of the backing tool,
    followed by at most one call of [git] on the repository of [self] with
    the keyword settings [kwargs], and which leaves [os.environ] alone. *)
Definition eden_then_git (self : EdenShell) (kwargs : Kwargs) {A} (m : M A)
  : Prop :=
  forall w,
    os_environ (snd (m w)) = os_environ w /\
    exists hgs tail,
      calls (snd (m w)) = calls w ++ hgs ++ tail /\
      Forall (is_eden_call (os_environ w)) hgs /\
      (tail = [] \/ exists c, tail = [c] /\ is_git_call self kwargs c).

(** The subprocess calls of one successful run of the loop body of
    [_push_branches] on the mapping [arg], in the process environment
    [environ]: the pull, then the push. *)
Definition push_calls (environ : gmap string string) (arg : string)
  : list call :=
  match PyStr.find ":" arg with
  | None => []
  | Some split_point =>
      let commit_hash := PyStr.take split_point arg in
      let refspec := PyStr.drop (split_point + 1) arg in
      let refspec := if PyStr.startswith "refs/heads/" refspec
                     then PyStr.drop (String.length "refs/heads/") refspec
                     else refspec in
      [eden_call environ ["pull"; "-r"; commit_hash];
       eden_call environ
         ["push"; "-r"; commit_hash; "--to"; refspec; "--force"]]
  end.

(** The claim that on [fetch --prune <remote_name>] the generic runner
    receives the resolved URL in third place, whatever the URL is. *)
Definition fetch_forwards_url (self : EdenShell) (kwargs : Kwargs)
  (w : world) : Prop :=
  forall url w1,
    _get_origin w = (Ok url, w1) ->
    git self ["fetch"; "--prune"; remote_name (conf self)] kwargs w =
    Shell_git ["--git-dir"; git_dir self; "fetch"; "--prune"; url;
               "+refs/heads/*:refs/remotes/origin/*"] kwargs w1.

(** The tip query of [_rewrite_args]. *)
Definition tip_query : list string :=
  ["log"; "-r"; "max(.::)"; "-T"; "{node}"].

(** The introspection command of [__init__]. *)
Definition gitdir_query : list string :=
  ["debugshell"; "-c";
   "print(repo.svfs.join(repo.svfs.readutf8(" +:+ dquote +:+ "gitdir"
     +:+ dquote +:+ ")))"].

(** A world in which every subprocess exits with a non-zero status. *)
Definition world_failing : world :=
  MkWorld {[ "PATH" := "/usr/bin" ]} [] [] (fun _ _ => None).

(** A world whose backing tool reports the default path as [HEAD]. *)
Definition world_HEAD_path : world :=
  MkWorld ∅ [] []
    (fun history c =>
       match call_argv c with
       | "hg" :: "config" :: _ => Some "HEAD"
       | _ => respond0 history c
       end).

(** * Proofs *)

(** ** Strings *)

Section StringFacts.

Implicit Types (s t p b : string) (a c : ascii).

Lemma take_app_length s t : PyStr.take (String.length s) (s +:+ t) = s.
Proof. induction s as [|a s IH]; simpl; [by destruct t | by rewrite IH]. Qed.

Lemma drop_app_length s t : PyStr.drop (String.length s) (s +:+ t) = t.
Proof. induction s as [|a s IH]; simpl; [by destruct t | done]. Qed.

Lemma find_app_fresh c s t :
  PyStr.find c s = None ->
  PyStr.find c (s +:+ String c t) = Some (String.length s).
Proof.
  induction s as [|a s IH]; simpl; intros H.
  - by rewrite Ascii.eqb_refl.
  - destruct (Ascii.eqb a c); [done|].
    destruct (PyStr.find c s); [done|]. by rewrite IH.
Qed.

Lemma startswith_app p s : PyStr.startswith p (p +:+ s) = true.
Proof.
  unfold PyStr.startswith.
  induction p as [|a p IH]; simpl; [by destruct s|].
  destruct (ascii_dec a a); [done | congruence].
Qed.

Lemma startswith_inv p s :
  PyStr.startswith p s = true -> exists b, s = p +:+ b.
Proof.
  unfold PyStr.startswith. revert s.
  induction p as [|a p IH]; intros s H.
  - by exists s.
  - destruct s as [|a' s]; simpl in H; [done|].
    destruct (ascii_dec a a') as [->|]; [|done].
    destruct (IH s H) as [b ->]. by exists b.
Qed.

Lemma rfind_absent c s : PyStr.find c s = None -> PyStr.rfind c s = (-1)%Z.
Proof.
  induction s as [|a s IH]; simpl; [done|].
  destruct (Ascii.eqb a c); [done|].
  destruct (PyStr.find c s); [done|]. intros _. by rewrite IH.
Qed.

Lemma rfind_last c p b :
  PyStr.find c b = None ->
  PyStr.rfind c (p +:+ String c b) = Z.of_nat (String.length p).
Proof.
  intros Hb. induction p as [|a p IH]; simpl.
  - by rewrite (rfind_absent _ _ Hb), Ascii.eqb_refl.
  - rewrite IH.
    destruct (Z.eqb_spec (Z.of_nat (String.length p)) (-1)); lia.
Qed.

Lemma app_cons a s t : String a s +:+ t = String a (s +:+ t).
Proof. reflexivity. Qed.

Lemma app_String s c t : s +:+ String c t = (s +:+ String c EmptyString) +:+ t.
Proof.
  induction s as [|a s IH]; [done|]. by rewrite !app_cons, IH.
Qed.

Lemma length_app_one s c :
  String.length (s +:+ String c EmptyString) = String.length s + 1.
Proof.
  induction s as [|a s IH]; [done|]. rewrite app_cons. simpl. by rewrite IH.
Qed.

Lemma drop_past s c t : PyStr.drop (String.length s + 1) (s +:+ String c t) = t.
Proof. by rewrite app_String, <- (length_app_one s c), drop_app_length. Qed.

End StringFacts.

(** ** The matcher *)

Section Matcher.

Implicit Types (pattern : list pyval) (args : list string) (p : pyval).

Lemma is_WILDCARD_ARG_true p : is_WILDCARD_ARG p = true <-> p = WILDCARD_ARG.
Proof.
  destruct p as [| | |addr]; simpl; try (split; discriminate).
  rewrite Nat.eqb_eq. unfold WILDCARD_ARG. split; congruence.
Qed.

Lemma literal_not_wildcard s : PyStr_ s <> WILDCARD_ARG.
Proof. discriminate. Qed.

(** On patterns of known kinds the loop ends with a boolean. *)
Lemma match_args_loop_bool pattern args :
  Forall known_kind pattern -> exists b, match_args_loop pattern args = Ok b.
Proof.
  intros Hk. revert args.
  induction Hk as [|p pattern [->|[s ->]] _ IH]; intros [|arg args]; simpl;
    eauto.
  destruct (String.eqb s arg); simpl; eauto.
Qed.

Lemma match_args_loop_true pattern args :
  Forall known_kind pattern ->
  length pattern <= length args ->
  match_args_loop pattern args = Ok true <->
  (forall i p, pattern !! i = Some p -> p <> WILDCARD_ARG ->
               exists a, args !! i = Some a /\ p = PyStr_ a).
Proof.
  intros Hk. revert args.
  induction Hk as [|p pattern Hp _ IH]; intros args Hlen.
  - split; [intros _ i p Hi; by rewrite lookup_nil in Hi | done].
  - destruct args as [|arg args]; simpl in Hlen; [lia|].
    specialize (IH args ltac:(lia)).
    destruct Hp as [->|[s ->]]; simpl.
    + rewrite IH. split.
      * intros H [|i] p Hi Hp; simpl in *; [congruence | eauto].
      * intros H i p Hi Hp. apply (H (S i) p Hi Hp).
    + destruct (String.eqb_spec s arg) as [->|Hne]; simpl.
      * rewrite IH. split.
        -- intros H [|i] p Hi Hp; simpl in *; [|eauto].
           injection Hi as <-. eauto.
        -- intros H i p Hi Hp. apply (H (S i) p Hi Hp).
      * split; [discriminate|]. intros H.
        destruct (H 0 (PyStr_ s) eq_refl (literal_not_wildcard s))
          as (a & Ha & Hs).
        simpl in Ha. congruence.
Qed.

(** Where the loop raises: at the first element of unknown kind, provided
    the elements before it matched. *)
Lemma match_args_loop_raise pre bad post args :
  ~ known_kind bad ->
  length (pre ++ bad :: post) <= length args ->
  match_args_loop pre args = Ok true ->
  match_args_loop (pre ++ bad :: post) args = Raise (UnknownPatternType bad).
Proof.
  intros Hbad. revert args.
  induction pre as [|p pre IH]; intros [|arg args] Hlen Hpre;
    simpl in Hlen; try lia.
  - simpl. destruct (is_WILDCARD_ARG bad) eqn:Hw.
    + destruct Hbad. left. by apply is_WILDCARD_ARG_true.
    + destruct bad; try done. destruct Hbad. right. eauto.
  - simpl in *. destruct (is_WILDCARD_ARG p).
    + apply IH; [lia | done].
    + destruct p; try done.
      destruct (String.eqb s arg); simpl in *; [|done].
      apply IH; [lia | done].
Qed.

Lemma match_args_loop_raise_inv pattern args e :
  length pattern <= length args ->
  match_args_loop pattern args = Raise e ->
  exists pre bad post,
    pattern = pre ++ bad :: post /\ ~ known_kind bad /\
    e = UnknownPatternType bad /\ match_args_loop pre args = Ok true.
Proof.
  revert args. induction pattern as [|p pattern IH]; intros args Hlen H.
  - done.
  - destruct args as [|arg args]; simpl in Hlen; [lia|].
    simpl in H.
    assert (match_args_loop pattern args = Raise e ->
            (is_WILDCARD_ARG p = true \/ exists s, p = PyStr_ s /\ s = arg) ->
            exists pre bad post,
              p :: pattern = pre ++ bad :: post /\ ~ known_kind bad /\
              e = UnknownPatternType bad /\
              match_args_loop pre (arg :: args) = Ok true) as Hstep.
    { intros Hr Hp. destruct (IH args ltac:(lia) Hr)
        as (pre & bad & post & -> & Hbad & -> & Hpre).
      exists (p :: pre), bad, post. repeat split; [done|].
      simpl. destruct Hp as [->|(s & -> & ->)]; [done|].
      simpl. by rewrite String.eqb_refl. }
    destruct (is_WILDCARD_ARG p) eqn:Hw; [by apply Hstep; auto|].
    destruct p as [s|n| |addr].
    + destruct (String.eqb_spec s arg); simpl in H; [|done].
      apply Hstep; eauto.
    + injection H as <-. exists [], (PyInt n), pattern.
      refine (conj eq_refl (conj _ (conj eq_refl eq_refl))).
      intros [?|[? ?]]; discriminate.
    + injection H as <-. exists [], PyNone, pattern.
      refine (conj eq_refl (conj _ (conj eq_refl eq_refl))).
      intros [?|[? ?]]; discriminate.
    + injection H as <-. exists [], (PyDict addr), pattern.
      refine (conj eq_refl (conj _ (conj eq_refl eq_refl))).
      intros [Heq|[? ?]]; [|discriminate].
      apply is_WILDCARD_ARG_true in Heq. congruence.
Qed.

Lemma match_args_short pattern args :
  length args < length pattern -> match_args pattern args = Ok false.
Proof.
  intros H. unfold match_args.
  by destruct (Nat.ltb_spec (length args) (length pattern)); [|lia].
Qed.

(** Candidate elements beyond the length of the pattern are not looked at. *)
Lemma match_args_loop_app pattern args extra :
  length pattern <= length args ->
  match_args_loop pattern (args ++ extra) = match_args_loop pattern args.
Proof.
  revert args. induction pattern as [|p pattern IH]; intros [|arg args] Hlen;
    simpl in Hlen; try lia; [by destruct extra | done |].
  cbn [app match_args_loop]. rewrite IH by lia. done.
Qed.

Lemma match_args_long pattern args :
  length pattern <= length args ->
  match_args pattern args = match_args_loop pattern args.
Proof.
  intros H. unfold match_args.
  by destruct (Nat.ltb_spec (length args) (length pattern)); [lia|].
Qed.

End Matcher.

(** C4: on a pattern of literal strings and wildcard markers, [match_args]
    returns true iff the candidate is at least as long as the pattern and
    every non-wildcard element of the pattern equals the candidate element
    at the same position, and false otherwise; whenever the pattern is
    longer than the candidate it returns false, whatever the pattern
    holds; extra trailing candidate elements do not change the result. *)
Theorem C4_match_args_rule (pattern : list pyval) (args : list string) :
  (Forall known_kind pattern ->
   (match_args pattern args = Ok true <-> spec_matches pattern args) /\
   (match_args pattern args = Ok false <-> ~ spec_matches pattern args)) /\
  (length args < length pattern -> match_args pattern args = Ok false) /\
  (forall extra, length pattern <= length args ->
                 match_args pattern (args ++ extra) = match_args pattern args).
Proof.
  split; [|split; [apply match_args_short|]]; cycle 1.
  { intros extra Hle. rewrite !match_args_long, match_args_loop_app; try done.
    rewrite length_app. lia. }
  intros Hk. unfold spec_matches.
  destruct (Nat.le_gt_cases (length pattern) (length args)) as [Hle|Hgt].
  - rewrite (match_args_long _ _ Hle).
    pose proof (match_args_loop_true _ _ Hk Hle) as Hiff.
    destruct (match_args_loop_bool pattern args Hk) as [[|] Hb];
      rewrite Hb in *; split; split; try done.
    + intros _. split; [done|]. by apply Hiff.
    + intros Hn. destruct Hn. split; [done|]. by apply Hiff.
    + intros [_ H]. apply Hiff in H. discriminate.
    + intros _ [_ H]. apply Hiff in H. discriminate.
  - rewrite (match_args_short _ _ Hgt). split; split; try done.
    + intros [? _]. lia.
    + intros _ [? _]. lia.
Qed.

Lemma C4_match_args_rule_witness :
  spec_matches (push_pattern "origin")
               ["push"; "origin"; "--force"; "h1:refs/heads/b1"] /\
  match_args (fetch_pattern "origin") ["fetch"; "--prune"] = Ok false.
Proof.
  split.
  - apply (proj1 (C4_match_args_rule
                    (push_pattern "origin")
                    ["push"; "origin"; "--force"; "h1:refs/heads/b1"])).
    + repeat (apply Forall_cons_2; [right; eexists; reflexivity|]).
      apply Forall_nil_2.
    + reflexivity.
  - apply (proj1 (proj2 (C4_match_args_rule (fetch_pattern "origin")
                             ["fetch"; "--prune"]))).
    simpl. lia.
Defined.

(** C9: when a pattern holds an element that is neither the wildcard marker
    nor a literal string and matching reaches that element (the candidate
    is at least as long as the pattern and the elements before it match),
    [match_args] raises the unknown-pattern-type exception for that element
    and returns no boolean; and it raises in no other situation. *)
Theorem C9_match_args_unknown_kind (pattern : list pyval) (args : list string) :
  (forall pre bad post,
     pattern = pre ++ bad :: post ->
     ~ known_kind bad ->
     length pattern <= length args ->
     match_args pre args = Ok true ->
     match_args pattern args = Raise (UnknownPatternType bad) /\
     forall b, match_args pattern args <> Ok b) /\
  (forall e,
     match_args pattern args = Raise e ->
     exists pre bad post,
       pattern = pre ++ bad :: post /\ ~ known_kind bad /\
       length pattern <= length args /\ match_args pre args = Ok true /\
       e = UnknownPatternType bad).
Proof.
  split.
  - intros pre bad post -> Hbad Hlen Hpre.
    assert (length pre <= length args) as Hlen'.
    { rewrite length_app in Hlen. lia. }
    rewrite (match_args_long _ _ Hlen') in Hpre.
    rewrite (match_args_long _ _ Hlen).
    rewrite (match_args_loop_raise pre bad post args Hbad Hlen Hpre).
    split; [done | discriminate].
  - intros e He.
    destruct (Nat.le_gt_cases (length pattern) (length args)) as [Hle|Hgt].
    + rewrite (match_args_long _ _ Hle) in He.
      destruct (match_args_loop_raise_inv _ _ _ Hle He)
        as (pre & bad & post & -> & Hbad & -> & Hpre).
      exists pre, bad, post. repeat split; try done.
      rewrite match_args_long; [done|].
      rewrite length_app in Hle. lia.
    + by rewrite (match_args_short _ _ Hgt) in He.
Qed.

Lemma C9_match_args_unknown_kind_witness :
  match_args [PyStr_ "push"; PyDict 1; PyStr_ "x"] ["push"; "origin"; "x"]
  = Raise (UnknownPatternType (PyDict 1)).
Proof.
  apply (proj1 (C9_match_args_unknown_kind
                  [PyStr_ "push"; PyDict 1; PyStr_ "x"]
                  ["push"; "origin"; "x"])
           [PyStr_ "push"] (PyDict 1) [PyStr_ "x"]).
  - reflexivity.
  - intros [H|[s H]]; discriminate H.
  - simpl. lia.
  - reflexivity.
Defined.

(** ** The monad and the backing-tool runner *)

Section Effects.

Context {A B : Type}.

Lemma bind_ok (c : M A) (k : A -> M B) w a w' :
  c w = (Ok a, w') -> bind c k w = k a w'.
Proof. unfold bind. by intros ->. Qed.

Lemma bind_raise (c : M A) (k : A -> M B) w e w' :
  c w = (Raise e, w') -> bind c k w = (Raise e, w').
Proof. unfold bind. by intros ->. Qed.

Lemma bind_lift (r : result A) (k : A -> M B) w b :
  r = Ok b -> bind (lift r) k w = k b w.
Proof. by intros ->. Qed.

Lemma bind_ext (c : M A) (k k' : A -> M B) w :
  (forall a w', k a w' = k' a w') -> bind c k w = bind c k' w.
Proof.
  intros H. unfold bind. destruct (c w) as [[a|e] w']; [apply H | done].
Qed.

End Effects.

(** What one call of the backing tool does to the world. *)
Lemma run_eden_command_unfold (args : list string) (w : world) :
  _run_eden_command args w =
  let c := eden_call (os_environ w) args in
  let w' := MkWorld (os_environ w)
                    (heap w ++ [<[EDEN_PLAIN_ENV_VAR:="1"]> (os_environ w)])
                    (calls w ++ [c]) (respond w) in
  match respond w (calls w) c with
  | Some out => (Ok (_maybe_rstrip out), w')
  | None => (Raise (CalledProcessError (EDEN_CLI :: args)), w')
  end.
Proof.
  unfold _run_eden_command, bind, dict_copy, dict_setitem, dict_items, sh,
    ret, eden_call.
  cbn [os_environ heap calls respond].
  replace (length (heap w)) with (length (heap w) + 0) by lia.
  rewrite alter_app_r, lookup_app_r by lia.
  replace (length (heap w) + 0 - length (heap w)) with 0 by lia.
  cbn [alter list_alter lookup list_lookup default from_option app].
  by destruct (respond w (calls w) _).
Qed.

(** Unfolds the matcher on a pattern and a candidate whose shapes are
    known, leaving the string comparisons in place. *)
Ltac match_step :=
  unfold match_args;
  cbn [match_args_loop is_WILDCARD_ARG WILDCARD_ARG Nat.eqb length Nat.ltb
       Nat.leb].

Lemma match_args_head_ne s pattern a args :
  String.eqb s a = false ->
  match_args (PyStr_ s :: pattern) (a :: args) = Ok false.
Proof.
  intros H. unfold match_args.
  destruct (Nat.ltb _ _); [done|].
  cbn [match_args_loop is_WILDCARD_ARG]. by rewrite H.
Qed.

Lemma match_push_inv rn args :
  match_args (push_pattern rn) args = Ok true ->
  exists rest, args = "push" :: rn :: rest.
Proof.
  unfold push_pattern.
  destruct args as [|a0 [|a1 rest]]; try done. match_step.
  destruct (String.eqb_spec "push" a0) as [<-|]; [|done].
  destruct (String.eqb_spec rn a1) as [<-|]; [|done].
  eauto.
Qed.

Lemma match_merge_base_inv args :
  match_args merge_base_pattern args = Ok true ->
  exists R rest, args = "merge-base" :: R :: "HEAD" :: rest.
Proof.
  unfold merge_base_pattern.
  destruct args as [|a0 [|a1 [|a2 rest]]]; try done. match_step.
  destruct (String.eqb_spec "merge-base" a0) as [<-|]; [|done].
  destruct (String.eqb_spec "HEAD" a2) as [<-|]; [|done].
  eauto.
Qed.

Lemma match_push_intro rn rest :
  match_args (push_pattern rn) ("push" :: rn :: rest) = Ok true.
Proof.
  unfold push_pattern. match_step. by rewrite !String.eqb_refl.
Qed.

Lemma match_merge_base_intro R rest :
  match_args merge_base_pattern ("merge-base" :: R :: "HEAD" :: rest) = Ok true.
Proof. unfold merge_base_pattern. match_step. by rewrite !String.eqb_refl. Qed.

Lemma match_fetch_intro rn rest :
  match_args (fetch_pattern rn) ("fetch" :: "--prune" :: rn :: rest) = Ok true.
Proof. unfold fetch_pattern. match_step. by rewrite !String.eqb_refl. Qed.

Lemma match_fetch_inv rn args :
  match_args (fetch_pattern rn) args = Ok true ->
  exists rest, args = "fetch" :: "--prune" :: rn :: rest.
Proof.
  unfold fetch_pattern.
  destruct args as [|a0 [|a1 [|a2 rest]]]; try done. match_step.
  destruct (String.eqb_spec "fetch" a0) as [<-|]; [|done].
  destruct (String.eqb_spec "--prune" a1) as [<-|]; [|done].
  destruct (String.eqb_spec rn a2) as [<-|]; [|done].
  eauto.
Qed.

(** ** The cases of [git] *)

(** When no pattern matches, [git] is its last three statements. *)
Lemma git_default self args kwargs w :
  falls_through self args ->
  git self args kwargs w = git_pass_through self args kwargs w.
Proof.
  unfold falls_through, remote_get_url_pattern, fetch_pattern,
    merge_base_pattern, push_pattern.
  intros (H1 & H2 & H3 & H4). unfold git.
  rewrite (bind_lift _ _ _ _ H1). cbv beta iota.
  rewrite (bind_lift _ _ _ _ H2). cbv beta iota.
  rewrite (bind_lift _ _ _ _ H3). cbv beta iota.
  by rewrite (bind_lift _ _ _ _ H4).
Qed.

Lemma fetch_prune_falls_through self :
  falls_through self ["fetch"; "--prune"].
Proof.
  unfold falls_through. split_and!;
    try (apply match_args_short; simpl; lia).
  by apply match_args_head_ne.
Qed.

Lemma rewrite_args_no_HEAD args w :
  existsb (String.eqb "HEAD") args = false ->
  _rewrite_args args w = (Ok args, w).
Proof. unfold _rewrite_args. by intros ->. Qed.

Lemma Shell_git_calls args kwargs w :
  calls (snd (Shell_git args kwargs w)) = calls w ++ [MkCall ("git" :: args) kwargs].
Proof.
  unfold Shell_git, bind, sh, ret.
  by destruct (respond w (calls w) _).
Qed.

Lemma Shell_git_raise args kwargs w e :
  fst (Shell_git args kwargs w) = Raise e ->
  e = CalledProcessError ("git" :: args).
Proof.
  unfold Shell_git, bind, sh, ret.
  destruct (respond w (calls w) _); simpl; congruence.
Qed.

(** C1 (as amended): the two-element list [fetch --prune] is shorter than
    the fetch pattern, so no pattern matches it and no argument-count error
    is raised: [git] forwards it unchanged through the default case, which
    makes one [git --git-dir <handle> fetch --prune] subprocess call, and
    the only failure possible is that of this subprocess.  The error that
    names the offending argument list, raised before any subprocess call,
    is what [git] does on lists that match the fetch pattern and do not
    have exactly 3 elements. *)
Theorem C1_fetch_prune_two_args_passes_through
  (self : EdenShell) (kwargs : Kwargs) (w : world) :
  let out := git self ["fetch"; "--prune"] kwargs w in
  out = Shell_git ["--git-dir"; git_dir self; "fetch"; "--prune"] kwargs w /\
  calls (snd out) =
    calls w ++
      [MkCall ["git"; "--git-dir"; git_dir self; "fetch"; "--prune"] kwargs] /\
  (forall e, fst out = Raise e ->
             e = CalledProcessError
                   ["git"; "--git-dir"; git_dir self; "fetch"; "--prune"]) /\
  (forall args,
     match_args (fetch_pattern (remote_name (conf self))) args = Ok true ->
     length args <> 3 ->
     git self args kwargs w = (Raise (ExpectedExactly3Args args), w)).
Proof.
  assert (git self ["fetch"; "--prune"] kwargs w =
          Shell_git ["--git-dir"; git_dir self; "fetch"; "--prune"] kwargs w)
    as Heq.
  { rewrite (git_default _ _ _ _ (fetch_prune_falls_through self)).
    unfold git_pass_through.
    by rewrite (bind_ok _ _ _ _ _
                  (rewrite_args_no_HEAD ["fetch"; "--prune"] w eq_refl)). }
  cbv zeta. rewrite Heq. split; [done|]. split; [apply Shell_git_calls|].
  split; [apply Shell_git_raise|].
  intros args Hm Hlen.
  destruct (match_fetch_inv _ _ Hm) as [rest ->].
  destruct rest as [|x rest]; [done|].
  unfold fetch_pattern in Hm. unfold git.
  rewrite (bind_lift _ _ _ _ (match_args_head_ne "remote" _ "fetch" _ eq_refl)).
  cbv beta iota.
  by rewrite (bind_lift _ _ _ _ Hm).
Qed.

Lemma C1_fetch_prune_two_args_passes_through_witness :
  git self0 ["fetch"; "--prune"; "origin"; "--tags"] kwargs0 world0 =
  (Raise (ExpectedExactly3Args ["fetch"; "--prune"; "origin"; "--tags"]),
   world0).
Proof.
  apply (C1_fetch_prune_two_args_passes_through self0 kwargs0 world0).
  - reflexivity.
  - simpl. lia.
Defined.

(** C1 as stated fails: on [fetch --prune] the translator raises nothing
    and makes a subprocess call. *)
Lemma C1_counterexample :
  ~ fails_for_arg_count self0 ["fetch"; "--prune"] kwargs0 world0.
Proof.
  intros [[e He] _]. vm_compute in He. discriminate He.
Qed.

(** ** Pushing *)

Lemma bind_ret {A B} (a : A) (k : A -> M B) w : bind (ret a) k w = k a w.
Proof. reflexivity. Qed.

Lemma bind_cong {A B} (c c' : M A) (k : A -> M B) w :
  c w = c' w -> bind c k w = bind c' k w.
Proof. unfold bind. by intros ->. Qed.

Lemma bind_assoc {A B C} (c : M A) (k : A -> M B) (k' : B -> M C) w :
  bind (bind c k) k' w = bind c (fun a => bind (k a) k') w.
Proof. unfold bind. by destruct (c w) as [[a|e] w']. Qed.

(** The loop of [_push_branches] runs the sub-procedure on every mapping
    in order and keeps the last output. *)
Lemma push_branches_loop_spec branch_args last_result w :
  push_branches_loop branch_args last_result w =
  (let! outputs := for_each push_branch branch_args in
   ret (match last outputs with Some o => Some o | None => last_result end)) w.
Proof.
  revert last_result w.
  induction branch_args as [|arg branch_args IH]; intros last_result w.
  - reflexivity.
  - cbn [push_branches_loop for_each]. rewrite bind_assoc.
    apply bind_ext. intros out w1.
    rewrite IH, bind_assoc. apply bind_ext. intros outputs w2.
    unfold bind, ret. rewrite last_cons. by destruct (last outputs).
Qed.

Lemma push_branches_spec is_force branch_args w :
  _push_branches is_force branch_args w = spec_push_all branch_args w.
Proof.
  unfold _push_branches, spec_push_all. rewrite push_branches_loop_spec.
  apply bind_ext. intros outputs w'. by destruct (last outputs).
Qed.

Lemma spec_push_all_single arg w :
  spec_push_all [arg] w = (let! out := push_branch arg in ret (Some out)) w.
Proof.
  unfold spec_push_all. cbn [for_each]. rewrite bind_assoc.
  apply bind_ext. intros out w'. reflexivity.
Qed.

(** The sub-procedure on a mapping [<hash>:<refspec>]. *)
Lemma push_branch_unfold hash refspec w :
  PyStr.find ":" hash = None ->
  push_branch (hash +:+ ":" +:+ refspec) w =
  (let! _ := _run_eden_command ["pull"; "-r"; hash] in
   _run_eden_command
     ["push"; "-r"; hash; "--to";
      if PyStr.startswith "refs/heads/" refspec
      then PyStr.drop (String.length "refs/heads/") refspec else refspec;
      "--force"]) w.
Proof.
  intros Hhash. unfold push_branch, str_index.
  change (":" +:+ refspec) with (String ":" refspec).
  rewrite (find_app_fresh _ _ refspec Hhash). cbv iota.
  rewrite bind_ret. cbv zeta.
  by rewrite take_app_length, drop_past.
Qed.

(** The calls of the sub-procedure on one mapping: a beginning of the
    expected pull and push, all of it on success, and then the result is
    the trimmed output of the last call. *)
Lemma push_branch_trace arg w :
  os_environ (snd (push_branch arg w)) = os_environ w /\
  respond (snd (push_branch arg w)) = respond w /\
  exists new rest,
    calls (snd (push_branch arg w)) = calls w ++ new /\
    push_calls (os_environ w) arg = new ++ rest /\
    forall o, fst (push_branch arg w) = Ok o ->
      rest = [] /\ PyStr.find ":" arg <> None /\
      exists hist c raw,
        calls (snd (push_branch arg w)) = hist ++ [c] /\
        last (push_calls (os_environ w) arg) = Some c /\
        respond w hist c = Some raw /\ o = _maybe_rstrip raw.
Proof.
  unfold push_branch, str_index, push_calls.
  destruct (PyStr.find ":" arg) as [split_point|].
  - rewrite bind_ret. cbv zeta. unfold bind.
    rewrite run_eden_command_unfold. cbv zeta.
    destruct (respond w (calls w) _) as [raw1|] eqn:H1.
    + rewrite run_eden_command_unfold. cbn [os_environ calls respond heap].
      destruct (respond w (calls w ++ _) _) as [raw2|] eqn:H2;
        cbn [fst snd os_environ calls respond];
        (split; [done|]); (split; [done|]);
        eexists [_; _], []; (split; [by rewrite <- app_assoc|]);
        (split; [done|]); [|done].
      intros o [= <-]. split_and!; [done|done|].
      eexists _, _, raw2. split_and!; [reflexivity|reflexivity|exact H2|done].
    + cbn [fst snd os_environ calls respond].
      split; [done|]. split; [done|].
      eexists [_], [_]. by split_and!.
  - cbn [fst snd raise]. split; [done|]. split; [done|].
    exists [], []. rewrite app_nil_r. by split_and!.
Qed.

(** The calls of the loop of [_push_branches]: a beginning of the expected
    calls of the mappings in order, all of them on success, and then the
    result is the trimmed output of the push of the last mapping. *)
Lemma push_branches_loop_trace branch_args last_result w :
  os_environ (snd (push_branches_loop branch_args last_result w))
    = os_environ w /\
  respond (snd (push_branches_loop branch_args last_result w)) = respond w /\
  exists new rest,
    calls (snd (push_branches_loop branch_args last_result w))
      = calls w ++ new /\
    flat_map (push_calls (os_environ w)) branch_args = new ++ rest /\
    forall r, fst (push_branches_loop branch_args last_result w) = Ok r ->
      rest = [] /\
      Forall (fun m => PyStr.find ":" m <> None) branch_args /\
      (branch_args = [] -> r = last_result) /\
      (forall ms m, branch_args = ms ++ [m] ->
         exists hist c raw,
           calls (snd (push_branches_loop branch_args last_result w))
             = hist ++ [c] /\
           last (push_calls (os_environ w) m) = Some c /\
           respond w hist c = Some raw /\ r = Some (_maybe_rstrip raw)).
Proof.
  revert last_result w.
  induction branch_args as [|arg branch_args IH]; intros last_result w.
  - cbn [push_branches_loop ret fst snd flat_map].
    split; [done|]. split; [done|]. exists [], []. rewrite app_nil_r.
    split_and!; [done|done|]. intros r [= <-].
    split_and!; [done|apply Forall_nil_2|done|].
    intros [|? ?] m Hm; discriminate Hm.
  - cbn [push_branches_loop flat_map]. unfold bind.
    destruct (push_branch_trace arg w)
      as (He & Hr & new1 & rest1 & Hc1 & Hp1 & Hok1).
    destruct (push_branch arg w) as [[o|e] w1]; cbn [fst snd] in *.
    + destruct (Hok1 o eq_refl)
        as (-> & Hcolon & hist & c & raw & Hh & Hl & Hresp & ->).
      rewrite app_nil_r in Hp1.
      destruct (IH (Some (_maybe_rstrip raw)) w1)
        as (He2 & Hr2 & new2 & rest2 & Hc2 & Hp2 & Hok2).
      rewrite He in Hp2, Hok2. rewrite Hr in Hok2.
      split; [congruence|]. split; [congruence|].
      exists (new1 ++ new2), rest2.
      split; [by rewrite Hc2, Hc1, app_assoc|].
      split; [by rewrite Hp1, Hp2, app_assoc|].
      intros r Hres. destruct (Hok2 r Hres) as (-> & Hall & Hnil & Hlast).
      split_and!; [done|by apply Forall_cons_2|done|].
      intros [|a' ms] m Hm.
      * injection Hm as <- ->. rewrite (Hnil eq_refl).
        cbn [flat_map] in Hp2. symmetry in Hp2.
        apply app_eq_nil in Hp2 as [-> _].
        rewrite Hc2, app_nil_r. by exists hist, c, raw.
      * injection Hm as <- ->. exact (Hlast ms m eq_refl).
    + split; [done|]. split; [done|].
      exists new1, (rest1 ++ flat_map (push_calls (os_environ w)) branch_args).
      split; [done|]. split; [by rewrite Hp1, app_assoc|]. done.
Qed.

(** C2: on a list matching the push pattern, [git] raises the
    expected-more-args error (before any subprocess call) when the list has
    exactly 2 elements; otherwise it takes [args[2] == "--force"] as the
    optional force flag and the elements after it as the mappings, and
    runs the push sub-procedure once per mapping in order: the subprocess
    calls made are always a beginning of the pull and forced push of each
    mapping in that order, they are all of them when [git] returns, and
    what [git] then returns is the trimmed output of the last call, the
    push of the last mapping ([None] without a mapping).  For
    [push origin --force h1:refs/heads/b1] the calls are the pull of [h1]
    and, when that succeeded, the forced push of [h1] to [b1], whose
    trimmed output is the result. *)
Theorem C2_push_case
  (self : EdenShell) (args : list string) (kwargs : Kwargs) (w : world) :
  match_args (push_pattern (remote_name (conf self))) args = Ok true ->
  (length args = 2 ->
   git self args kwargs w = (Raise (ExpectedMoreArgs args), w)) /\
  (length args <> 2 ->
   let mappings := if bool_decide (args !! 2 = Some "--force")
                   then drop 3 args else drop 2 args in
   let out := git self args kwargs w in
   out = spec_push_all mappings w /\
   (exists new rest,
      calls (snd out) = calls w ++ new /\
      flat_map (push_calls (os_environ w)) mappings = new ++ rest) /\
   (forall r, fst out = Ok r ->
      Forall (fun m => PyStr.find ":" m <> None) mappings /\
      calls (snd out) =
        calls w ++ flat_map (push_calls (os_environ w)) mappings /\
      (mappings = [] -> r = None) /\
      (forall ms m, mappings = ms ++ [m] ->
         exists hist c raw,
           calls (snd out) = hist ++ [c] /\
           last (push_calls (os_environ w) m) = Some c /\
           respond w hist c = Some raw /\
           r = Some (_maybe_rstrip raw)))) /\
  (forall git_dir,
     let out := git (MkEdenShell (MkConfig "origin") git_dir)
                    ["push"; "origin"; "--force"; "h1:refs/heads/b1"]
                    kwargs w in
     let c1 := eden_call (os_environ w) ["pull"; "-r"; "h1"] in
     let c2 := eden_call (os_environ w)
                 ["push"; "-r"; "h1"; "--to"; "b1"; "--force"] in
     (respond w (calls w) c1 = None ->
      fst out = Raise (CalledProcessError (call_argv c1)) /\
      calls (snd out) = calls w ++ [c1]) /\
     (forall raw1, respond w (calls w) c1 = Some raw1 ->
        calls (snd out) = calls w ++ [c1; c2] /\
        fst out =
          match respond w (calls w ++ [c1]) c2 with
          | Some raw => Ok (Some (_maybe_rstrip raw))
          | None => Raise (CalledProcessError (call_argv c2))
          end)).
Proof.
  assert (forall self' rest,
            git self' ("push" :: remote_name (conf self') :: rest) kwargs w =
            (if Nat.eqb (length rest) 0
             then raise (ExpectedMoreArgs
                           ("push" :: remote_name (conf self') :: rest))
             else
               let! a2 := list_getitem
                            ("push" :: remote_name (conf self') :: rest) 2 in
               let is_force := String.eqb a2 "--force" in
               _push_branches is_force
                 (drop (if is_force then 3 else 2)
                    ("push" :: remote_name (conf self') :: rest))) w) as Hgit.
  { intros self' rest. unfold git.
    rewrite (bind_lift _ _ _ _
               (match_args_head_ne "remote" _ "push" _ eq_refl)).
    cbv beta iota.
    rewrite (bind_lift _ _ _ _
               (match_args_head_ne "fetch" _ "push" _ eq_refl)).
    cbv beta iota.
    rewrite (bind_lift _ _ _ _
               (match_args_head_ne "merge-base" _ "push" _ eq_refl)).
    cbv beta iota.
    by rewrite (bind_lift _ _ _ _
                  (match_push_intro (remote_name (conf self')) rest)). }
  intros Hm. destruct (match_push_inv _ _ Hm) as [rest ->].
  split; [|split].
  - intros Hlen. rewrite Hgit. by destruct rest.
  - intros Hlen. cbv zeta. rewrite Hgit. destruct rest as [|a2 rest]; [done|].
    cbn [length Nat.eqb]. rewrite (bind_ok _ _ _ a2 w eq_refl).
    cbv zeta. cbn [lookup list_lookup].
    set (mappings := if bool_decide (Some a2 = Some "--force") then _ else _).
    assert (drop (if String.eqb a2 "--force" then 3 else 2)
              ("push" :: remote_name (conf self) :: a2 :: rest) = mappings)
      as ->.
    { unfold mappings. destruct (String.eqb_spec a2 "--force") as [->|Hne].
      - by rewrite bool_decide_eq_true_2.
      - rewrite bool_decide_eq_false_2; [done | congruence]. }
    split; [apply push_branches_spec|].
    unfold _push_branches.
    destruct (push_branches_loop_trace mappings None w)
      as (_ & _ & new & rest' & Hcalls & Hexp & Hok).
    split; [by exists new, rest'|].
    intros r Hr. destruct (Hok r Hr) as (-> & Hall & Hnil & Hlast).
    rewrite app_nil_r in Hexp. split_and!; try done. by rewrite Hexp.
  - intros gd. cbv zeta.
    pose proof (Hgit (MkEdenShell (MkConfig "origin") gd)
                  ["--force"; "h1:refs/heads/b1"]) as Hgit'.
    cbn [remote_name conf] in Hgit'. rewrite Hgit'. clear Hgit Hgit'.
    cbn [length Nat.eqb]. rewrite (bind_ok _ _ _ "--force" w eq_refl).
    cbv zeta.
    change (drop (if String.eqb "--force" "--force" then 3 else 2)
              ["push"; "origin"; "--force"; "h1:refs/heads/b1"])
      with ["h1:refs/heads/b1"].
    rewrite push_branches_spec, spec_push_all_single.
    assert (push_branch "h1:refs/heads/b1" w =
            (let! _ := _run_eden_command ["pull"; "-r"; "h1"] in
             _run_eden_command
               ["push"; "-r"; "h1"; "--to"; "b1"; "--force"]) w) as Hone.
    { exact (push_branch_unfold "h1" "refs/heads/b1" w eq_refl). }
    rewrite (bind_cong _ _ (fun out => ret (Some out)) _ Hone).
    unfold bind, ret. rewrite run_eden_command_unfold. cbv zeta.
    split.
    + by intros ->.
    + intros raw1 ->. rewrite run_eden_command_unfold.
      cbn [os_environ calls respond heap].
      destruct (respond w (calls w ++ _) _); cbn [fst snd calls];
        by rewrite <- app_assoc.
Qed.

Lemma C2_push_case_witness :
  git self0 ["push"; "origin"] kwargs0 world0 =
    (Raise (ExpectedMoreArgs ["push"; "origin"]), world0) /\
  calls (snd (git self0 ["push"; "origin"; "h1:refs/heads/b1"; "h2:b2"]
                kwargs0 world0)) =
    calls world0 ++
      flat_map (push_calls (os_environ world0)) ["h1:refs/heads/b1"; "h2:b2"].
Proof.
  split.
  - apply (C2_push_case self0 ["push"; "origin"] kwargs0 world0);
      reflexivity.
  - destruct (C2_push_case
                self0 ["push"; "origin"; "h1:refs/heads/b1"; "h2:b2"]
                kwargs0 world0 eq_refl) as (_ & Hpush & _).
    destruct (Hpush ltac:(discriminate)) as (_ & _ & Hok).
    destruct (Hok (Some "pushed") ltac:(vm_compute; reflexivity))
      as (_ & Hcalls & _).
    exact Hcalls.
Defined.

(** The destination of a refspec, as the sub-procedure derives it. *)
Lemma dest_branch_stripped b :
  (if PyStr.startswith "refs/heads/" ("refs/heads/" +:+ b)
   then PyStr.drop (String.length "refs/heads/") ("refs/heads/" +:+ b)
   else "refs/heads/" +:+ b) = b.
Proof. by rewrite startswith_app, drop_app_length. Qed.

Lemma dest_branch_unchanged refspec :
  (forall b, refspec <> "refs/heads/" +:+ b) ->
  (if PyStr.startswith "refs/heads/" refspec
   then PyStr.drop (String.length "refs/heads/") refspec
   else refspec) = refspec.
Proof.
  intros Hno. destruct (PyStr.startswith "refs/heads/" refspec) eqn:Hp; [|done].
  destruct (startswith_inv _ _ Hp) as [b ->]. by destruct (Hno b).
Qed.

(** C3: for a mapping [<hash>:<refspec>] the sub-procedure pushes to the
    refspec with its [refs/heads/] prefix removed (once), or to the refspec
    as it is when it lacks that prefix; it first pulls the single revision
    [hash] and only after that pull has succeeded pushes it, and the push
    carries [--force] whether or not a force push was requested. *)
Theorem C3_push_sub_procedure
  (hash refspec : string) (is_force : bool) (w : world) :
  PyStr.find ":" hash = None ->
  exists branch,
    (forall b, refspec = "refs/heads/" +:+ b -> branch = b) /\
    ((forall b, refspec <> "refs/heads/" +:+ b) -> branch = refspec) /\
    let pull := ["pull"; "-r"; hash] in
    let push := ["push"; "-r"; hash; "--to"; branch; "--force"] in
    let out := _push_branches is_force [hash +:+ ":" +:+ refspec] w in
    out = (let! _ := _run_eden_command pull in
           let! o := _run_eden_command push in
           ret (Some o)) w /\
    (calls (snd out) = calls w ++ [eden_call (os_environ w) pull] /\
     fst out = Raise (CalledProcessError (EDEN_CLI :: pull))
     \/
     calls (snd out) = calls w ++ [eden_call (os_environ w) pull;
                                   eden_call (os_environ w) push]).
Proof.
  intros Hhash.
  exists (if PyStr.startswith "refs/heads/" refspec
          then PyStr.drop (String.length "refs/heads/") refspec else refspec).
  split; [intros b ->; apply dest_branch_stripped|].
  split; [apply dest_branch_unchanged|].
  set (branch := if PyStr.startswith "refs/heads/" refspec then _ else _).
  cbv zeta.
  assert (_push_branches is_force [hash +:+ ":" +:+ refspec] w =
          (let! _ := _run_eden_command ["pull"; "-r"; hash] in
           let! o := _run_eden_command
                       ["push"; "-r"; hash; "--to"; branch; "--force"] in
           ret (Some o)) w) as ->.
  { rewrite push_branches_spec, spec_push_all_single, <- bind_assoc.
    apply bind_cong. by apply push_branch_unfold. }
  split; [done|].
  unfold bind. rewrite run_eden_command_unfold. cbv zeta.
  destruct (respond w (calls w) _); [|by left].
  rewrite run_eden_command_unfold. cbn [os_environ calls respond].
  right. destruct (respond w _ _); cbn [snd calls]; by rewrite <- app_assoc.
Qed.

Lemma C3_push_sub_procedure_witness :
  calls (snd (_push_branches false ["h1:refs/heads/b1"] world0)) =
  [eden_call (os_environ world0) ["pull"; "-r"; "h1"];
   eden_call (os_environ world0) ["push"; "-r"; "h1"; "--to"; "b1"; "--force"]].
Proof.
  destruct (C3_push_sub_procedure "h1" "refs/heads/b1" false world0 eq_refl)
    as (branch & Hstrip & _ & _ & [[_ Hfail]|Hcalls]).
  - discriminate Hfail.
  - rewrite <- (Hstrip "b1" eq_refl) at 2. exact Hcalls.
Defined.

(** ** Fetching *)

(** C5 (as amended): on [fetch --prune <remote_name>] (exactly 3
    elements) [git] resolves the remote URL with one call of the backing
    tool, puts it in place of the third element, appends the refspec
    [+refs/heads/*:refs/remotes/origin/*] and runs the default
    pass-through statements on that list.  When the resolved URL is not
    the text [HEAD], the next and last subprocess call is
    [git --git-dir <handle> fetch --prune <url> +refs/heads/*:refs/remotes/origin/*]
    and its trimmed output is the result.  When the resolved URL is the
    text [HEAD], the pass-through statements replace it like any [HEAD]
    token: the tip is queried and takes the place of the URL.  When the
    URL cannot be resolved the failure is raised and nothing else is
    run. *)
Theorem C5_fetch_case (self : EdenShell) (kwargs : Kwargs) (w : world) :
  let args := ["fetch"; "--prune"; remote_name (conf self)] in
  let refspec := "+refs/heads/*:refs/remotes/origin/*" in
  let q := eden_call (os_environ w) ["config"; "paths.default"] in
  let t := eden_call (os_environ w) tip_query in
  let g := fun url =>
             MkCall ["git"; "--git-dir"; git_dir self; "fetch"; "--prune";
                     url; refspec] kwargs in
  let out := git self args kwargs w in
  out = (let! url := _get_origin in
         git_pass_through self ["fetch"; "--prune"; url; refspec] kwargs) w /\
  (respond w (calls w) q = None ->
   fst out = Raise (CalledProcessError (call_argv q)) /\
   calls (snd out) = calls w ++ [q]) /\
  (forall raw,
     respond w (calls w) q = Some raw ->
     _maybe_rstrip raw <> "HEAD" ->
     calls (snd out) = calls w ++ [q; g (_maybe_rstrip raw)] /\
     fst out =
       match respond w (calls w ++ [q]) (g (_maybe_rstrip raw)) with
       | Some o => Ok (Some (_maybe_rstrip o))
       | None => Raise (CalledProcessError (call_argv (g (_maybe_rstrip raw))))
       end) /\
  (forall raw,
     respond w (calls w) q = Some raw ->
     _maybe_rstrip raw = "HEAD" ->
     (respond w (calls w ++ [q]) t = None ->
      fst out = Raise (CalledProcessError (call_argv t)) /\
      calls (snd out) = calls w ++ [q; t]) /\
     (forall raw',
        respond w (calls w ++ [q]) t = Some raw' ->
        calls (snd out) = calls w ++ [q; t; g (_maybe_rstrip raw')])).
Proof.
  cbv zeta.
  assert (git self ["fetch"; "--prune"; remote_name (conf self)] kwargs w =
          (let! url := _get_origin in
           git_pass_through self
             ["fetch"; "--prune"; url; "+refs/heads/*:refs/remotes/origin/*"]
             kwargs) w) as Heq.
  { unfold git.
    rewrite (bind_lift _ _ _ _
               (match_args_head_ne "remote" _ "fetch" _ eq_refl)).
    cbv beta iota.
    by rewrite (bind_lift _ _ _ _
                  (match_fetch_intro (remote_name (conf self)) [])). }
  split; [done|]. rewrite Heq. clear Heq.
  set (k := fun url : string => git_pass_through self
             ["fetch"; "--prune"; url; "+refs/heads/*:refs/remotes/origin/*"]
             kwargs).
  assert (forall raw, respond w (calls w)
                        (eden_call (os_environ w) ["config"; "paths.default"])
                      = Some raw ->
          bind _get_origin k w =
          k (_maybe_rstrip raw)
            (MkWorld (os_environ w)
               (heap w ++ [<[EDEN_PLAIN_ENV_VAR:="1"]> (os_environ w)])
               (calls w ++
                  [eden_call (os_environ w) ["config"; "paths.default"]])
               (respond w))) as Hok.
  { intros raw Hraw. unfold _get_origin, bind.
    rewrite run_eden_command_unfold. cbv zeta. by rewrite Hraw. }
  split_and!.
  - intros Hnone. unfold _get_origin, bind.
    rewrite run_eden_command_unfold. cbv zeta. by rewrite Hnone.
  - intros raw Hraw Hne. rewrite (Hok raw Hraw). unfold k, git_pass_through.
    rewrite (bind_ok _ _ _ _ _
               (rewrite_args_no_HEAD
                  ["fetch"; "--prune"; _maybe_rstrip raw;
                   "+refs/heads/*:refs/remotes/origin/*"] _
                  ltac:(cbn [existsb orb];
                        by destruct (String.eqb_spec
                                       "HEAD" (_maybe_rstrip raw))))).
    unfold Shell_git, bind, sh, ret. cbn [calls respond os_environ heap].
    destruct (respond w (calls w ++ _) _); cbn [fst snd calls app];
      by rewrite <- app_assoc.
  - intros raw Hraw Hurl. rewrite (Hok raw Hraw), Hurl.
    unfold k, git_pass_through, _rewrite_args.
    change (existsb (String.eqb "HEAD")
              ["fetch"; "--prune"; "HEAD";
               "+refs/heads/*:refs/remotes/origin/*"]) with true.
    cbv iota. fold tip_query. unfold bind.
    rewrite run_eden_command_unfold. cbn [calls respond os_environ heap].
    split.
    + intros ->. cbn [fst snd calls]. by rewrite <- app_assoc.
    + intros raw' ->. unfold Shell_git, bind, sh, ret.
      cbn [calls respond os_environ heap].
      destruct (respond w ((calls w ++ _) ++ _) _); cbn [fst snd calls app];
        by rewrite <- !app_assoc.
Qed.

Lemma C5_fetch_case_witness :
  calls (snd (git self0 ["fetch"; "--prune"; "origin"] kwargs0 world0)) =
  calls world0 ++
    [eden_call (os_environ world0) ["config"; "paths.default"];
     MkCall ["git"; "--git-dir"; "/repo/.git"; "fetch"; "--prune";
             "https://example.org/r.git";
             "+refs/heads/*:refs/remotes/origin/*"] kwargs0].
Proof.
  destruct (C5_fetch_case self0 kwargs0 world0) as (_ & _ & Hurl & _).
  apply (Hurl ("https://example.org/r.git" +:+ newline)).
  - reflexivity.
  - discriminate.
Defined.

(** C5 as stated fails: when the backing tool reports the default path as
    the text [HEAD], the runner receives the tip identifier, not the
    resolved URL. *)
Lemma C5_counterexample :
  ~ fetch_forwards_url self0 kwargs0 world_HEAD_path.
Proof.
  intros Hclaim.
  specialize (Hclaim "HEAD" (snd (_get_origin world_HEAD_path)) eq_refl).
  apply (f_equal (fun r => length (calls (snd r)))) in Hclaim.
  vm_compute in Hclaim. discriminate Hclaim.
Qed.

(** ** Merge base *)

(** C6: on a list matching the merge-base pattern, with the remote ref [R]
    in position 1, [git] takes what follows the last [/] of [R] ([R] itself
    when it holds no [/]) as the branch name and makes exactly one
    subprocess call, the backing tool's
    [log -T {node} -r ancestor(., <branch>)] with the plain-output
    environment; it returns the trimmed output of that process, and raises
    its failure when the process exits with a non-zero status. *)
Theorem C6_merge_base_case
  (self : EdenShell) (args : list string) (kwargs : Kwargs) (w : world) :
  match_args merge_base_pattern args = Ok true ->
  exists R branch,
    args !! 1 = Some R /\
    (PyStr.find "/" R = None -> branch = R) /\
    (forall p b, R = p +:+ "/" +:+ b -> PyStr.find "/" b = None ->
                 branch = b) /\
    let query := ["log"; "-T"; "{node}"; "-r";
                  "ancestor(., " +:+ branch +:+ ")"] in
    let c := eden_call (os_environ w) query in
    git self args kwargs w =
      (let! node := _run_eden_command query in ret (Some node)) w /\
    calls (snd (git self args kwargs w)) = calls w ++ [c] /\
    (forall raw, respond w (calls w) c = Some raw ->
                 fst (git self args kwargs w) = Ok (Some (_maybe_rstrip raw))) /\
    (respond w (calls w) c = None ->
     fst (git self args kwargs w) =
       Raise (CalledProcessError (EDEN_CLI :: query))).
Proof.
  intros Hm. destruct (match_merge_base_inv _ Hm) as (R & rest & ->).
  exists R.
  exists (if negb (PyStr.rfind "/" R =? -1)%Z
          then PyStr.drop (Z.to_nat (PyStr.rfind "/" R + 1)) R else R).
  split; [done|]. split; [|split].
  - intros Hno. by rewrite (rfind_absent _ _ Hno).
  - intros p b -> Hb.
    change ("/" +:+ b) with (String "/" b).
    rewrite (rfind_last _ p _ Hb).
    destruct (Z.eqb_spec (Z.of_nat (String.length p)) (-1)); [lia|].
    cbn [negb].
    replace (Z.to_nat (Z.of_nat (String.length p) + 1))
      with (String.length p + 1) by lia.
    apply drop_past.
  - set (branch := if negb _ then _ else _). cbv zeta.
    assert (git self ("merge-base" :: R :: "HEAD" :: rest) kwargs w =
            (let! node :=
               _run_eden_command
                 ["log"; "-T"; "{node}"; "-r";
                  "ancestor(., " +:+ branch +:+ ")"] in
             ret (Some node)) w) as Heq.
    { unfold git, merge_base_pattern in *.
      rewrite (bind_lift _ _ _ _
                 (match_args_head_ne "remote" _ "merge-base" _ eq_refl)).
      cbv beta iota.
      rewrite (bind_lift _ _ _ _
                 (match_args_head_ne "fetch" _ "merge-base" _ eq_refl)).
      cbv beta iota.
      by rewrite (bind_lift _ _ _ _ Hm). }
    split; [done|]. rewrite Heq. unfold bind.
    rewrite run_eden_command_unfold. cbv zeta.
    destruct (respond w (calls w) _) as [raw|]; split_and!; try done.
    by intros raw' [= <-].
Qed.

Lemma C6_merge_base_case_witness :
  calls (snd (git self0 ["merge-base"; "origin/release-1.0"; "HEAD"]
                kwargs0 world0)) =
    [eden_call (os_environ world0)
       ["log"; "-T"; "{node}"; "-r"; "ancestor(., release-1.0)"]] /\
  fst (git self0 ["merge-base"; "origin/release-1.0"; "HEAD"]
         kwargs0 world0) = Ok (Some "beef").
Proof.
  destruct (C6_merge_base_case
              self0 ["merge-base"; "origin/release-1.0"; "HEAD"]
              kwargs0 world0 eq_refl)
    as (R & branch & HR & _ & Hlast & _ & Hcalls & Hok & _).
  injection HR as <-.
  rewrite (Hlast "origin" "release-1.0" eq_refl eq_refl) in Hcalls, Hok.
  split; [exact Hcalls|].
  exact (Hok ("beef" +:+ newline) eq_refl).
Defined.

(** ** The default case *)

Lemma existsb_HEAD (args : list string) :
  existsb (String.eqb "HEAD") args = bool_decide ("HEAD" ∈ args).
Proof.
  induction args as [|a args IH]; [done|].
  cbn [existsb]. rewrite IH.
  destruct (String.eqb_spec "HEAD" a) as [<-|Hne]; cbn [orb].
  - symmetry. apply bool_decide_eq_true_2. apply elem_of_cons. by left.
  - apply bool_decide_ext. rewrite elem_of_cons. tauto.
Qed.

(** The in-place loop of [_rewrite_args], from any position on. *)
Lemma rewrite_loop_from (top : string) (done_ todo : list string) :
  rewrite_loop top (length todo) (length done_) (done_ ++ todo) =
  done_ ++ spec_replace_HEAD top todo.
Proof.
  revert done_. induction todo as [|a todo IH]; intros done_; [done|].
  cbn [length rewrite_loop].
  rewrite (list_lookup_middle done_ todo a (length done_) eq_refl).
  assert (forall x, rewrite_loop top (length todo) (S (length done_))
                      (done_ ++ x :: todo) =
                    done_ ++ x :: spec_replace_HEAD top todo) as Hnext.
  { intros x. specialize (IH (done_ ++ [x])).
    rewrite length_app, <- app_assoc in IH. cbn [length app] in IH.
    replace (length done_ + 1) with (S (length done_)) in IH by lia.
    by rewrite IH, <- app_assoc. }
  cbn [spec_replace_HEAD map].
  destruct (String.eqb_spec a "HEAD") as [->|Hne].
  - rewrite insert_app_r_alt, Nat.sub_diag by lia.
    cbn [insert list_insert]. rewrite Hnext.
    by rewrite decide_True.
  - rewrite Hnext. by rewrite decide_False.
Qed.

Lemma rewrite_loop_spec (top : string) (args : list string) :
  rewrite_loop top (length args) 0 args = spec_replace_HEAD top args.
Proof. apply (rewrite_loop_from top [] args). Qed.

Lemma spec_replace_HEAD_absent (top : string) (args : list string) :
  "HEAD" ∉ args -> spec_replace_HEAD top args = args.
Proof.
  induction args as [|a args IH]; [done|].
  rewrite not_elem_of_cons. intros [Hne Hrest].
  cbn [spec_replace_HEAD map]. rewrite decide_False by congruence.
  f_equal. by apply IH.
Qed.

(** C7: on a list that no pattern matches, [git] replaces every element
    equal to [HEAD] by the current-tip identifier that the backing tool
    reports (asked once, and only when the list holds a [HEAD]), keeps the
    other elements and the order, puts [--git-dir] and the repository
    handle in front and delegates to the generic runner. *)
Theorem C7_default_case
  (self : EdenShell) (args : list string) (kwargs : Kwargs) (w : world) :
  falls_through self args ->
  git self args kwargs w =
    (let! git_args :=
       (if bool_decide ("HEAD" ∈ args) then
          let! top := _run_eden_command
                        ["log"; "-r"; "max(.::)"; "-T"; "{node}"] in
          ret (spec_replace_HEAD top args)
        else ret args) in
     Shell_git ("--git-dir" :: git_dir self :: git_args) kwargs) w.
Proof.
  intros Hdefault. rewrite (git_default _ _ _ _ Hdefault).
  unfold git_pass_through. apply bind_cong.
  unfold _rewrite_args. rewrite existsb_HEAD.
  destruct (bool_decide ("HEAD" ∈ args)); [|done].
  apply bind_ext. intros top w'. by rewrite rewrite_loop_spec.
Qed.

Lemma C7_default_case_witness :
  fst (git self0 ["log"; "HEAD"; "-n1"; "HEAD"] kwargs0 world0) =
    Ok (Some "done") /\
  map call_argv
    (calls (snd (git self0 ["log"; "HEAD"; "-n1"; "HEAD"] kwargs0 world0))) =
    [["hg"; "log"; "-r"; "max(.::)"; "-T"; "{node}"];
     ["git"; "--git-dir"; "/repo/.git"; "log"; "f00d"; "-n1"; "f00d"]].
Proof.
  rewrite (C7_default_case self0 ["log"; "HEAD"; "-n1"; "HEAD"]
             kwargs0 world0).
  - split; reflexivity.
  - unfold falls_through. split_and!; reflexivity.
Defined.

(** C8: on a list without a [HEAD] token the rewrite of the default case
    returns the list as it is, in every world, without a subprocess call
    and without any change to the world; so does the rewrite applied any
    number of times in a row, and the arguments handed to the generic
    runner are [--git-dir], the repository handle and the list. *)
Theorem C8_rewrite_without_HEAD
  (self : EdenShell) (args : list string) (kwargs : Kwargs) :
  "HEAD" ∉ args ->
  (forall w, _rewrite_args args w = (Ok args, w)) /\
  (forall w1 w2, fst (_rewrite_args args w1) = fst (_rewrite_args args w2)) /\
  (forall n w, rewrite_times n args w = (Ok args, w)) /\
  (forall w, git_pass_through self args kwargs w =
             Shell_git ("--git-dir" :: git_dir self :: args) kwargs w).
Proof.
  intros Hno.
  assert (forall w, _rewrite_args args w = (Ok args, w)) as Hsame.
  { intros w. apply rewrite_args_no_HEAD.
    rewrite existsb_HEAD. by apply bool_decide_eq_false_2. }
  split; [done|]. split; [|split].
  - intros w1 w2. by rewrite !Hsame.
  - intros n. induction n as [|n IH]; intros w; [done|].
    cbn [rewrite_times]. by rewrite (bind_ok _ _ _ _ _ (Hsame w)).
  - intros w. unfold git_pass_through.
    by rewrite (bind_ok _ _ _ _ _ (Hsame w)).
Qed.

Lemma C8_rewrite_without_HEAD_witness :
  rewrite_times 2 ["status"; "--short"] world0 =
  (Ok ["status"; "--short"], world0).
Proof.
  apply (C8_rewrite_without_HEAD self0 ["status"; "--short"] kwargs0).
  rewrite !not_elem_of_cons. split_and!; try discriminate.
  apply not_elem_of_nil.
Defined.

(** ** The process environment *)

Section Environ.

Lemma keeps_environ_ret {A} (a : A) : keeps_environ (ret a).
Proof.
  intros w. split_and!; [done | exists []|exists []]; cbn [ret snd];
    rewrite ?app_nil_r; [done|]. split; [done | apply Forall_nil_2].
Qed.

Lemma keeps_environ_raise {A} (e : exn) : keeps_environ (@raise A e).
Proof. apply (keeps_environ_ret (A:=unit) tt). Qed.

Lemma keeps_environ_lift {A} (r : result A) : keeps_environ (lift r).
Proof. apply (keeps_environ_ret (A:=unit) tt). Qed.

Lemma keeps_environ_bind {A B} (c : M A) (k : A -> M B) :
  keeps_environ c -> (forall a, keeps_environ (k a)) ->
  keeps_environ (bind c k).
Proof.
  intros Hc Hk w. unfold bind.
  destruct (Hc w) as (Henv & [objs Hheap] & new & Hcalls & Hnew).
  destruct (c w) as [[a|e] w1]; cbn [snd] in *.
  - destruct (Hk a w1) as (Henv' & [objs' Hheap'] & new' & Hcalls' & Hnew').
    split_and!.
    + congruence.
    + exists (objs ++ objs'). by rewrite Hheap', Hheap, app_assoc.
    + exists (new ++ new'). rewrite Hcalls', Hcalls, app_assoc.
      split; [done|]. apply Forall_app. split; [done|].
      by rewrite <- Henv.
  - split_and!; [done | by exists objs | by exists new].
Qed.

Lemma keeps_environ_run_eden_command args :
  keeps_environ (_run_eden_command args).
Proof.
  intros w. rewrite run_eden_command_unfold. cbv zeta.
  assert (plain_env (os_environ w) (eden_call (os_environ w) args)) as Hc.
  { intros _. eexists. split; [done|]. split.
    - apply lookup_insert_eq.
    - intros k Hk. by apply lookup_insert_ne. }
  destruct (respond w (calls w) _); cbn [snd os_environ heap calls];
    (split_and!; [done | by eexists |]);
    eexists; (split; [done|]); by apply Forall_singleton.
Qed.

Lemma keeps_environ_Shell_git args kwargs :
  keeps_environ (Shell_git args kwargs).
Proof.
  intros w. unfold Shell_git, bind, sh, ret.
  assert (plain_env (os_environ w) (MkCall ("git" :: args) kwargs)) as Hc.
  { intros Hhead. discriminate Hhead. }
  destruct (respond w (calls w) _); cbn [snd os_environ heap calls];
    (split_and!; [done | exists []; by rewrite app_nil_r |]);
    eexists; (split; [done|]); by apply Forall_singleton.
Qed.

Lemma keeps_environ_rewrite_args args : keeps_environ (_rewrite_args args).
Proof.
  unfold _rewrite_args. destruct (existsb _ _).
  - apply keeps_environ_bind; [apply keeps_environ_run_eden_command|].
    intros top. apply keeps_environ_ret.
  - apply keeps_environ_ret.
Qed.

Lemma keeps_environ_push_branch arg : keeps_environ (push_branch arg).
Proof.
  unfold push_branch, str_index.
  apply keeps_environ_bind.
  - destruct (PyStr.find _ _); [apply keeps_environ_ret|].
    apply keeps_environ_raise.
  - intros split_point. cbv zeta.
    apply keeps_environ_bind; intros;
      apply keeps_environ_run_eden_command.
Qed.

Lemma keeps_environ_push_branches is_force branch_args :
  keeps_environ (_push_branches is_force branch_args).
Proof.
  unfold _push_branches. generalize (@None string).
  induction branch_args as [|arg branch_args IH]; intros last_result.
  - apply keeps_environ_ret.
  - cbn [push_branches_loop].
    apply keeps_environ_bind; [apply keeps_environ_push_branch|].
    intros out. apply IH.
Qed.

Lemma keeps_environ_pass_through self args kwargs :
  keeps_environ (git_pass_through self args kwargs).
Proof.
  unfold git_pass_through.
  apply keeps_environ_bind; [apply keeps_environ_rewrite_args|].
  intros git_args. apply keeps_environ_Shell_git.
Qed.

Lemma keeps_environ_git self args kwargs :
  keeps_environ (git self args kwargs).
Proof.
  unfold git, _get_origin, list_getitem, list_setitem.
  repeat first
    [ apply keeps_environ_lift
    | apply keeps_environ_ret
    | apply keeps_environ_raise
    | apply keeps_environ_run_eden_command
    | apply keeps_environ_push_branches
    | apply keeps_environ_pass_through
    | apply keeps_environ_bind; [|intros ?; cbv zeta]
    | match goal with
      | |- keeps_environ (if ?b then _ else _) => destruct b
      | |- keeps_environ (match ?o with Some _ => _ | None => _ end) =>
          destruct o
      end ].
Qed.

End Environ.

(** C10: every call of the backing tool is made with a dictionary that was
    copied from [os.environ] for that call and in which [HGPLAIN] is set to
    [1] (all other variables as in [os.environ]); no operation of the
    translator changes [os.environ] or a dictionary object that existed
    before it, and every call of the backing tool that an operation makes
    carries that plain-output setting. *)
Theorem C10_plain_env_per_call :
  (forall args w,
     let w' := snd (_run_eden_command args w) in
     calls w' = calls w ++ [eden_call (os_environ w) args] /\
     heap w' = heap w ++ [<[EDEN_PLAIN_ENV_VAR:="1"]> (os_environ w)] /\
     os_environ w' = os_environ w /\
     plain_env (os_environ w) (eden_call (os_environ w) args)) /\
  (forall args, keeps_environ (_run_eden_command args)) /\
  keeps_environ _get_origin /\
  (forall args, keeps_environ (_rewrite_args args)) /\
  (forall is_force branch_args,
     keeps_environ (_push_branches is_force branch_args)) /\
  (forall conf, keeps_environ (__init__ conf)) /\
  (forall self args kwargs, keeps_environ (git self args kwargs)).
Proof.
  split_and!.
  - intros args w. cbv zeta. rewrite run_eden_command_unfold. cbv zeta.
    assert (plain_env (os_environ w) (eden_call (os_environ w) args)) as Hc.
    { intros _. eexists. split; [done|]. split.
      - apply lookup_insert_eq.
      - intros k Hk. by apply lookup_insert_ne. }
    by destruct (respond w (calls w) _).
  - apply keeps_environ_run_eden_command.
  - apply keeps_environ_run_eden_command.
  - apply keeps_environ_rewrite_args.
  - apply keeps_environ_push_branches.
  - intros conf. unfold __init__.
    apply keeps_environ_bind; [apply keeps_environ_run_eden_command|].
    intros gd. apply keeps_environ_ret.
  - apply keeps_environ_git.
Qed.

(** * Further properties *)

(** ** The dispatch of [git] *)

Lemma match_remote_inv rn args :
  match_args (remote_get_url_pattern rn) args = Ok true ->
  exists rest, args = "remote" :: "get-url" :: rn :: rest.
Proof.
  unfold remote_get_url_pattern.
  destruct args as [|a0 [|a1 [|a2 rest]]]; try done. match_step.
  destruct (String.eqb_spec "remote" a0) as [<-|]; [|done].
  destruct (String.eqb_spec "get-url" a1) as [<-|]; [|done].
  destruct (String.eqb_spec rn a2) as [<-|]; [|done].
  eauto.
Qed.

Lemma match_remote_intro rn rest :
  match_args (remote_get_url_pattern rn)
    ("remote" :: "get-url" :: rn :: rest) = Ok true.
Proof.
  unfold remote_get_url_pattern. match_step. by rewrite !String.eqb_refl.
Qed.

Lemma match_args_bool pattern args :
  Forall known_kind pattern -> exists b, match_args pattern args = Ok b.
Proof.
  intros Hk. unfold match_args. destruct (Nat.ltb _ _); [by exists false|].
  by apply match_args_loop_bool.
Qed.

Lemma literal_known s : known_kind (PyStr_ s).
Proof. right. by exists s. Qed.

Lemma wildcard_known : known_kind WILDCARD_ARG.
Proof. by left. Qed.

(** The four cases of [git], as equations. *)

Lemma git_remote_eq self rest kwargs w :
  git self ("remote" :: "get-url" :: remote_name (conf self) :: rest) kwargs w
  = (let! origin := _get_origin in ret (Some origin)) w.
Proof.
  unfold git.
  by rewrite (bind_lift _ _ _ _
                (match_remote_intro (remote_name (conf self)) rest)).
Qed.

Lemma git_fetch_eq self rest kwargs w :
  git self ("fetch" :: "--prune" :: remote_name (conf self) :: rest) kwargs w
  = match rest with
    | [] =>
        (let! url := _get_origin in
         git_pass_through self
           ["fetch"; "--prune"; url; "+refs/heads/*:refs/remotes/origin/*"]
           kwargs) w
    | _ :: _ =>
        (Raise (ExpectedExactly3Args
                  ("fetch" :: "--prune" :: remote_name (conf self) :: rest)),
         w)
    end.
Proof.
  unfold git.
  rewrite (bind_lift _ _ _ _
             (match_args_head_ne "remote" _ "fetch" _ eq_refl)).
  cbv beta iota.
  rewrite (bind_lift _ _ _ _
             (match_fetch_intro (remote_name (conf self)) rest)).
  by destruct rest.
Qed.

Lemma git_merge_base_eq self remote rest kwargs w :
  git self ("merge-base" :: remote :: "HEAD" :: rest) kwargs w
  = (let! node :=
       _run_eden_command
         ["log"; "-T"; "{node}"; "-r";
          "ancestor(., " +:+ merge_base_branch remote +:+ ")"] in
     ret (Some node)) w.
Proof.
  unfold git.
  rewrite (bind_lift _ _ _ _
             (match_args_head_ne "remote" _ "merge-base" _ eq_refl)).
  cbv beta iota.
  rewrite (bind_lift _ _ _ _
             (match_args_head_ne "fetch" _ "merge-base" _ eq_refl)).
  cbv beta iota.
  by rewrite (bind_lift _ _ _ _ (match_merge_base_intro remote rest)).
Qed.

Lemma git_push_eq self rest kwargs w :
  git self ("push" :: remote_name (conf self) :: rest) kwargs w
  = match rest with
    | [] =>
        (Raise (ExpectedMoreArgs ["push"; remote_name (conf self)]), w)
    | a2 :: rest' =>
        _push_branches (String.eqb a2 "--force")
          (if String.eqb a2 "--force" then rest' else a2 :: rest') w
    end.
Proof.
  unfold git.
  rewrite (bind_lift _ _ _ _
             (match_args_head_ne "remote" _ "push" _ eq_refl)).
  cbv beta iota.
  rewrite (bind_lift _ _ _ _
             (match_args_head_ne "fetch" _ "push" _ eq_refl)).
  cbv beta iota.
  rewrite (bind_lift _ _ _ _
             (match_args_head_ne "merge-base" _ "push" _ eq_refl)).
  cbv beta iota.
  rewrite (bind_lift _ _ _ _
             (match_push_intro (remote_name (conf self)) rest)).
  destruct rest as [|a2 rest']; [done|].
  cbn [length Nat.eqb]. rewrite (bind_ok _ _ _ a2 w eq_refl).
  cbv zeta. by destruct (String.eqb a2 "--force").
Qed.

(** Every argument list is in exactly one of the five cases. *)
Lemma git_dispatch self args :
  (exists rest,
     args = "remote" :: "get-url" :: remote_name (conf self) :: rest) \/
  (exists rest,
     args = "fetch" :: "--prune" :: remote_name (conf self) :: rest) \/
  (exists remote rest, args = "merge-base" :: remote :: "HEAD" :: rest) \/
  (exists rest, args = "push" :: remote_name (conf self) :: rest) \/
  falls_through self args.
Proof.
  set (rn := remote_name (conf self)).
  destruct (match_args_bool (remote_get_url_pattern rn) args) as [[|] H1].
  { repeat (apply Forall_cons_2; [apply literal_known|]). apply Forall_nil_2. }
  { left. by apply match_remote_inv. }
  destruct (match_args_bool (fetch_pattern rn) args) as [[|] H2].
  { repeat (apply Forall_cons_2; [apply literal_known|]). apply Forall_nil_2. }
  { right; left. by apply match_fetch_inv. }
  destruct (match_args_bool merge_base_pattern args) as [[|] H3].
  { apply Forall_cons_2; [apply literal_known|].
    apply Forall_cons_2; [apply wildcard_known|].
    apply Forall_cons_2; [apply literal_known|]. apply Forall_nil_2. }
  { right; right; left. by apply match_merge_base_inv. }
  destruct (match_args_bool (push_pattern rn) args) as [[|] H4].
  { repeat (apply Forall_cons_2; [apply literal_known|]). apply Forall_nil_2. }
  { right; right; right; left. by apply match_push_inv. }
  right; right; right; right. by split_and!.
Qed.

(** X1: on a list matching the resolve-remote-URL pattern, [git] makes
    exactly one subprocess call, [hg config paths.default] with the
    plain-output environment, and returns its trimmed output, or raises
    when that process fails; the elements after the remote name and the
    keyword settings play no part. *)
Theorem X1_remote_get_url_case
  (self : EdenShell) (args : list string) (kwargs : Kwargs) (w : world) :
  match_args (remote_get_url_pattern (remote_name (conf self))) args
    = Ok true ->
  let c := eden_call (os_environ w) ["config"; "paths.default"] in
  calls (snd (git self args kwargs w)) = calls w ++ [c] /\
  fst (git self args kwargs w) =
    match respond w (calls w) c with
    | Some out => Ok (Some (_maybe_rstrip out))
    | None => Raise (CalledProcessError ["hg"; "config"; "paths.default"])
    end.
Proof.
  intros Hm. destruct (match_remote_inv _ _ Hm) as [rest ->].
  cbv zeta. rewrite git_remote_eq. unfold _get_origin, bind.
  rewrite run_eden_command_unfold. cbv zeta.
  by destruct (respond w (calls w) _).
Qed.

Lemma X1_remote_get_url_case_witness :
  fst (git self0 ["remote"; "get-url"; "origin"; "--push"] kwargs0 world0) =
  Ok (Some "https://example.org/r.git").
Proof.
  rewrite (proj2 (X1_remote_get_url_case
                    self0 ["remote"; "get-url"; "origin"; "--push"]
                    kwargs0 world0 eq_refl)).
  reflexivity.
Defined.

(** X2: in the resolve-remote-URL, merge-base and push cases the keyword
    settings of the caller (working directory, quiet flag, environment)
    are dropped: [git] does the same whatever they are. *)
Theorem X2_kwargs_dropped
  (self : EdenShell) (args : list string) (kwargs kwargs' : Kwargs)
  (w : world) :
  match_args (remote_get_url_pattern (remote_name (conf self))) args
    = Ok true \/
  match_args merge_base_pattern args = Ok true \/
  match_args (push_pattern (remote_name (conf self))) args = Ok true ->
  git self args kwargs w = git self args kwargs' w.
Proof.
  intros [Hm|[Hm|Hm]].
  - destruct (match_remote_inv _ _ Hm) as [rest ->].
    by rewrite !git_remote_eq.
  - destruct (match_merge_base_inv _ Hm) as (remote & rest & ->).
    by rewrite !git_merge_base_eq.
  - destruct (match_push_inv _ _ Hm) as [rest ->].
    by rewrite !git_push_eq.
Qed.

Lemma X2_kwargs_dropped_witness :
  git self0 ["merge-base"; "origin/main"; "HEAD"]
      (MkKwargs (Some "/tmp") (Some true) (Some ∅)) world0 =
  git self0 ["merge-base"; "origin/main"; "HEAD"] kwargs0 world0.
Proof.
  apply (X2_kwargs_dropped self0 ["merge-base"; "origin/main"; "HEAD"]).
  right; left. reflexivity.
Defined.

(** X3: the four pattern tests of [git] always return a boolean, and at
    most one of them returns true on any argument list: the order of the
    [if]/[elif] chain decides nothing. *)
Theorem X3_patterns_exclusive (rn : string) (args : list string) :
  exists b1 b2 b3 b4,
    match_args (remote_get_url_pattern rn) args = Ok b1 /\
    match_args (fetch_pattern rn) args = Ok b2 /\
    match_args merge_base_pattern args = Ok b3 /\
    match_args (push_pattern rn) args = Ok b4 /\
    Nat.b2n b1 + Nat.b2n b2 + Nat.b2n b3 + Nat.b2n b4 <= 1.
Proof.
  destruct (match_args_bool (remote_get_url_pattern rn) args) as [b1 H1].
  { repeat (apply Forall_cons_2; [apply literal_known|]). apply Forall_nil_2. }
  destruct (match_args_bool (fetch_pattern rn) args) as [b2 H2].
  { repeat (apply Forall_cons_2; [apply literal_known|]). apply Forall_nil_2. }
  destruct (match_args_bool merge_base_pattern args) as [b3 H3].
  { apply Forall_cons_2; [apply literal_known|].
    apply Forall_cons_2; [apply wildcard_known|].
    apply Forall_cons_2; [apply literal_known|]. apply Forall_nil_2. }
  destruct (match_args_bool (push_pattern rn) args) as [b4 H4].
  { repeat (apply Forall_cons_2; [apply literal_known|]). apply Forall_nil_2. }
  exists b1, b2, b3, b4. split_and!; try done.
  assert (b1 = true -> exists rest, args = "remote" :: rest) as I1.
  { intros ->. destruct (match_remote_inv _ _ H1) as [rest ->]. eauto. }
  assert (b2 = true -> exists rest, args = "fetch" :: rest) as I2.
  { intros ->. destruct (match_fetch_inv _ _ H2) as [rest ->]. eauto. }
  assert (b3 = true -> exists rest, args = "merge-base" :: rest) as I3.
  { intros ->. destruct (match_merge_base_inv _ H3) as (r & rest & ->). eauto. }
  assert (b4 = true -> exists rest, args = "push" :: rest) as I4.
  { intros ->. destruct (match_push_inv _ _ H4) as [rest ->]. eauto. }
  clear H1 H2 H3 H4.
  destruct b1, b2, b3, b4; cbn [Nat.b2n]; try lia; exfalso;
    repeat match goal with
           | I : true = true -> _ |- _ => destruct (I eq_refl) as [? ?]; clear I
           | I : false = true -> _ |- _ => clear I
           end;
    congruence.
Qed.

(** ** What [git] can raise *)

Section Raises.

Context (P : exn -> Prop).

Lemma raises_only_ret {A} (a : A) : raises_only P (ret a).
Proof. intros w e H. discriminate H. Qed.

Lemma raises_only_raise {A} (e : exn) : P e -> raises_only P (@raise A e).
Proof. intros He w e' H. cbn in H. congruence. Qed.

Lemma raises_only_bind {A B} (c : M A) (k : A -> M B) :
  raises_only P c -> (forall a, raises_only P (k a)) ->
  raises_only P (bind c k).
Proof.
  intros Hc Hk w e. unfold bind. specialize (Hc w).
  destruct (c w) as [[a|e'] w1]; cbn [fst] in *.
  - apply Hk.
  - intros [= <-]. by apply Hc.
Qed.

Hypothesis P_process : forall argv, P (CalledProcessError argv).

Lemma raises_only_run_eden_command args :
  raises_only P (_run_eden_command args).
Proof.
  intros w e. rewrite run_eden_command_unfold. cbv zeta.
  destruct (respond w (calls w) _); cbn [fst]; [done|].
  intros [= <-]. apply P_process.
Qed.

Lemma raises_only_pass_through self args kwargs :
  raises_only P (git_pass_through self args kwargs).
Proof.
  unfold git_pass_through. apply raises_only_bind.
  - unfold _rewrite_args. destruct (existsb _ _); [|apply raises_only_ret].
    apply raises_only_bind; [apply raises_only_run_eden_command|].
    intros top. apply raises_only_ret.
  - intros git_args w e. unfold Shell_git, bind, sh, ret.
    destruct (respond w (calls w) _); cbn [fst]; [done|].
    intros [= <-]. apply P_process.
Qed.

Hypothesis P_value : P ValueError_substring_not_found.

Lemma raises_only_push_branches is_force branch_args :
  raises_only P (_push_branches is_force branch_args).
Proof.
  unfold _push_branches. generalize (@None string).
  induction branch_args as [|arg branch_args IH]; intros last_result.
  - apply raises_only_ret.
  - cbn [push_branches_loop]. apply raises_only_bind; [|intros; apply IH].
    unfold push_branch, str_index. apply raises_only_bind.
    + destruct (PyStr.find _ _);
        [apply raises_only_ret | by apply raises_only_raise].
    + intros split_point. cbv zeta.
      apply raises_only_bind; intros; apply raises_only_run_eden_command.
Qed.

End Raises.

(** X4: whatever [git] raises is the exactly-3-args error or the
    more-args error for the list it was given, the [ValueError] of
    [str.index] on a push mapping without [:], or the failure of a
    subprocess; the list accesses [args[1]] and [args[2]] are never out of
    range and the pattern tests never raise. *)
Theorem X4_git_exceptions
  (self : EdenShell) (args : list string) (kwargs : Kwargs) (w : world)
  (e : exn) :
  fst (git self args kwargs w) = Raise e ->
  e = ExpectedExactly3Args args \/
  e = ExpectedMoreArgs args \/
  e = ValueError_substring_not_found \/
  exists argv, e = CalledProcessError argv.
Proof.
  change (fst (git self args kwargs w) = Raise e -> git_exn args e).
  assert (forall argv, git_exn args (CalledProcessError argv)) as Hproc.
  { intros argv. do 3 right. by exists argv. }
  assert (git_exn args ValueError_substring_not_found) as Hval.
  { do 2 right. by left. }
  destruct (git_dispatch self args)
    as [[rest ->]|[[rest ->]|[(remote & rest & ->)|[[rest ->]|Hdef]]]].
  - rewrite git_remote_eq.
    apply (raises_only_bind (git_exn _));
      [by apply raises_only_run_eden_command|].
    intros origin. apply raises_only_ret.
  - rewrite git_fetch_eq. destruct rest as [|x rest].
    + apply (raises_only_bind (git_exn _));
        [by apply raises_only_run_eden_command|].
      intros url. by apply raises_only_pass_through.
    + cbn [fst]. intros [= <-]. by left.
  - rewrite git_merge_base_eq.
    apply (raises_only_bind (git_exn _));
      [by apply raises_only_run_eden_command|].
    intros node. apply raises_only_ret.
  - rewrite git_push_eq. destruct rest as [|a2 rest].
    + cbn [fst]. intros [= <-]. right. by left.
    + by apply raises_only_push_branches.
  - rewrite (git_default _ _ _ _ Hdef). by apply raises_only_pass_through.
Qed.

Lemma X4_git_exceptions_witness :
  ExpectedMoreArgs ["push"; "origin"] =
    ExpectedExactly3Args ["push"; "origin"] \/
  ExpectedMoreArgs ["push"; "origin"] = ExpectedMoreArgs ["push"; "origin"] \/
  ExpectedMoreArgs ["push"; "origin"] = ValueError_substring_not_found \/
  exists argv, ExpectedMoreArgs ["push"; "origin"] = CalledProcessError argv.
Proof.
  apply (X4_git_exceptions self0 ["push"; "origin"] kwargs0 world0).
  reflexivity.
Defined.

(** ** The subprocess calls of [git] *)

Section Calls.

Lemma eden_only_ret {A} (a : A) : eden_only (ret a).
Proof.
  intros w. split; [done|]. exists []. cbn [ret snd].
  rewrite app_nil_r. split; [done | apply Forall_nil_2].
Qed.

Lemma eden_only_raise {A} (e : exn) : eden_only (@raise A e).
Proof. apply (eden_only_ret (A:=unit) tt). Qed.

Lemma eden_only_bind {A B} (c : M A) (k : A -> M B) :
  eden_only c -> (forall a, eden_only (k a)) -> eden_only (bind c k).
Proof.
  intros Hc Hk w. unfold bind.
  destruct (Hc w) as (Henv & hgs & Hcalls & Hhgs).
  destruct (c w) as [[a|e] w1]; cbn [snd] in *.
  - destruct (Hk a w1) as (Henv' & hgs' & Hcalls' & Hhgs').
    split; [congruence|]. exists (hgs ++ hgs').
    rewrite Hcalls', Hcalls, app_assoc. split; [done|].
    apply Forall_app. split; [done|]. by rewrite <- Henv.
  - split; [done|]. by exists hgs.
Qed.

Lemma eden_only_run_eden_command args : eden_only (_run_eden_command args).
Proof.
  intros w. rewrite run_eden_command_unfold. cbv zeta.
  assert (is_eden_call (os_environ w) (eden_call (os_environ w) args)) as Hc.
  { by exists args. }
  destruct (respond w (calls w) _); cbn [snd os_environ calls];
    (split; [done|]); eexists; (split; [done|]); by apply Forall_singleton.
Qed.

Lemma eden_only_push_branches is_force branch_args :
  eden_only (_push_branches is_force branch_args).
Proof.
  unfold _push_branches. generalize (@None string).
  induction branch_args as [|arg branch_args IH]; intros last_result.
  - apply eden_only_ret.
  - cbn [push_branches_loop]. apply eden_only_bind; [|intros; apply IH].
    unfold push_branch, str_index. apply eden_only_bind.
    + destruct (PyStr.find _ _); [apply eden_only_ret|apply eden_only_raise].
    + intros split_point. cbv zeta.
      apply eden_only_bind; intros; apply eden_only_run_eden_command.
Qed.

Lemma eden_only_rewrite_args args : eden_only (_rewrite_args args).
Proof.
  unfold _rewrite_args. destruct (existsb _ _); [|apply eden_only_ret].
  apply eden_only_bind; [apply eden_only_run_eden_command|].
  intros top. apply eden_only_ret.
Qed.

Context (self : EdenShell) (kwargs : Kwargs).

Lemma eden_then_git_of_eden_only {A} (m : M A) :
  eden_only m -> eden_then_git self kwargs m.
Proof.
  intros Hm w. destruct (Hm w) as (Henv & hgs & Hcalls & Hhgs).
  split; [done|]. exists hgs, []. rewrite app_nil_r. by split_and!; [| |left].
Qed.

Lemma eden_then_git_bind {A B} (c : M A) (k : A -> M B) :
  eden_only c -> (forall a, eden_then_git self kwargs (k a)) ->
  eden_then_git self kwargs (bind c k).
Proof.
  intros Hc Hk w. unfold bind.
  destruct (Hc w) as (Henv & hgs & Hcalls & Hhgs).
  destruct (c w) as [[a|e] w1]; cbn [snd] in *.
  - destruct (Hk a w1) as (Henv' & hgs' & tail & Hcalls' & Hhgs' & Htail).
    split; [congruence|]. exists (hgs ++ hgs'), tail.
    rewrite Hcalls', Hcalls, !app_assoc. split_and!; [done| |done].
    apply Forall_app. split; [done|]. by rewrite <- Henv.
  - split; [done|]. exists hgs, []. rewrite app_nil_r.
    by split_and!; [| |left].
Qed.

Lemma eden_then_git_pass_through args :
  eden_then_git self kwargs (git_pass_through self args kwargs).
Proof.
  unfold git_pass_through.
  apply eden_then_git_bind; [apply eden_only_rewrite_args|].
  intros git_args w. unfold Shell_git, bind, sh, ret.
  assert (is_git_call self kwargs
            (MkCall ("git" :: ["--git-dir"; git_dir self] ++ git_args) kwargs))
    as Hc.
  { by exists git_args. }
  destruct (respond w (calls w) _); cbn [snd os_environ calls];
    (split; [done|]); exists [], [MkCall ("git" :: ["--git-dir"; git_dir self] ++ git_args) kwargs];
    (split_and!; [done | apply Forall_nil_2 | right; eauto]).
Qed.

End Calls.

(** X5: the subprocess calls of one [git] invocation are calls of the
    backing tool through [_run_eden_command] (argument vector [hg ...],
    environment [os.environ] with [HGPLAIN=1], no other keyword setting),
    followed by at most one call of [git], which starts with
    [git --git-dir <handle>] and carries the caller's keyword settings;
    [os.environ] is the same afterwards. *)
Theorem X5_git_calls_shape
  (self : EdenShell) (args : list string) (kwargs : Kwargs) (w : world) :
  os_environ (snd (git self args kwargs w)) = os_environ w /\
  exists hgs tail,
    calls (snd (git self args kwargs w)) = calls w ++ hgs ++ tail /\
    Forall (fun c => exists a, c = eden_call (os_environ w) a) hgs /\
    (tail = [] \/
     exists rest,
       tail = [MkCall ("git" :: "--git-dir" :: git_dir self :: rest) kwargs]).
Proof.
  assert (eden_then_git self kwargs (git self args kwargs)) as Hshape.
  { intros w'.
    destruct (git_dispatch self args)
      as [[rest ->]|[[rest ->]|[(remote & rest & ->)|[[rest ->]|Hdef]]]].
    - rewrite git_remote_eq. revert w'.
      apply eden_then_git_of_eden_only, eden_only_bind;
        [apply eden_only_run_eden_command | intros; apply eden_only_ret].
    - rewrite git_fetch_eq. destruct rest as [|x rest].
      + revert w'. apply eden_then_git_bind;
          [apply eden_only_run_eden_command|].
        intros url. apply eden_then_git_pass_through.
      + apply (eden_then_git_of_eden_only self kwargs
                 (raise (A:=unit) IndexError) (eden_only_raise _) w').
    - rewrite git_merge_base_eq. revert w'.
      apply eden_then_git_of_eden_only, eden_only_bind;
        [apply eden_only_run_eden_command | intros; apply eden_only_ret].
    - rewrite git_push_eq. destruct rest as [|a2 rest].
      + apply (eden_then_git_of_eden_only self kwargs
                 (raise (A:=unit) IndexError) (eden_only_raise _) w').
      + revert w'. apply eden_then_git_of_eden_only, eden_only_push_branches.
    - rewrite (git_default _ _ _ _ Hdef).
      apply eden_then_git_pass_through. }
  destruct (Hshape w) as (Henv & hgs & tail & Hcalls & Hhgs & Htail).
  split; [done|]. exists hgs, tail. split_and!; [done|done|].
  destruct Htail as [->|(c & -> & rest & ->)]; [by left|right; eauto].
Qed.

(** ** More on pushing *)

(** X6: the [--force] flag of a push changes nothing: with at least one
    mapping after it, [git push <remote> --force m ...] does exactly what
    [git push <remote> m ...] does. *)
Theorem X6_force_flag_changes_nothing
  (self : EdenShell) (m : string) (ms : list string) (kwargs : Kwargs)
  (w : world) :
  m <> "--force" ->
  git self ("push" :: remote_name (conf self) :: "--force" :: m :: ms)
      kwargs w =
  git self ("push" :: remote_name (conf self) :: m :: ms) kwargs w.
Proof.
  intros Hm. rewrite !git_push_eq.
  by destruct (String.eqb_spec m "--force").
Qed.

Lemma X6_force_flag_changes_nothing_witness :
  git self0 ["push"; "origin"; "--force"; "h1:refs/heads/b1"] kwargs0 world0 =
  git self0 ["push"; "origin"; "h1:refs/heads/b1"] kwargs0 world0.
Proof.
  apply (X6_force_flag_changes_nothing self0 "h1:refs/heads/b1" []).
  discriminate.
Defined.

(** X7: a push that names no mapping after [--force] is not an error: it
    returns [None], makes no subprocess call and leaves the world as it
    is, while the same push without the flag raises the more-args error. *)
Theorem X7_push_without_mappings
  (self : EdenShell) (kwargs : Kwargs) (w : world) :
  git self ["push"; remote_name (conf self); "--force"] kwargs w
    = (Ok None, w) /\
  git self ["push"; remote_name (conf self)] kwargs w
    = (Raise (ExpectedMoreArgs ["push"; remote_name (conf self)]), w).
Proof. by rewrite !git_push_eq. Qed.

Lemma push_branches_loop_app l1 l2 last_result w :
  push_branches_loop (l1 ++ l2) last_result w =
  (let! r := push_branches_loop l1 last_result in push_branches_loop l2 r) w.
Proof.
  revert last_result w. induction l1 as [|arg l1 IH]; intros last_result w.
  - reflexivity.
  - cbn [app push_branches_loop]. rewrite bind_assoc.
    apply bind_ext. intros out w1. apply IH.
Qed.

(** X8: pushing the mappings [l1 ++ l2] is pushing [l1] and then, when
    that raised nothing, pushing [l2] from the world [l1] left; a failure
    among [l1] is the failure of the whole and nothing of [l2] is run. *)
Theorem X8_push_branches_app
  (is_force : bool) (l1 l2 : list string) (w : world) :
  l2 <> [] ->
  _push_branches is_force (l1 ++ l2) w =
  (let! _ := _push_branches is_force l1 in _push_branches is_force l2) w.
Proof.
  intros Hl2. unfold _push_branches. rewrite push_branches_loop_app.
  apply bind_ext. intros r w1. by destruct l2.
Qed.

Lemma X8_push_branches_app_witness :
  _push_branches false ["h1:b1"; "h2:b2"] world0 =
  (let! _ := _push_branches false ["h1:b1"] in
   _push_branches false ["h2:b2"]) world0.
Proof.
  apply (X8_push_branches_app false ["h1:b1"] ["h2:b2"] world0).
  discriminate.
Defined.

(** X9: the mappings are not checked before the first push: on a mapping
    without [:] the push raises [ValueError] only after the mappings before
    it have been pulled and pushed; the malformed mapping and the mappings
    after it cause no subprocess call. *)
Theorem X9_push_malformed_mapping
  (is_force : bool) (good : list string) (bad : string) (rest : list string)
  (w : world) :
  PyStr.find ":" bad = None ->
  _push_branches is_force (good ++ bad :: rest) w =
  (let! _ := _push_branches is_force good in
   raise ValueError_substring_not_found) w.
Proof.
  intros Hbad. unfold _push_branches. rewrite push_branches_loop_app.
  apply bind_ext. intros r w1.
  cbn [push_branches_loop]. unfold push_branch, str_index.
  by rewrite Hbad.
Qed.

Lemma X9_push_malformed_mapping_witness :
  _push_branches false ["h1:b1"; "oops"; "h3:b3"] world0 =
  (let! _ := _push_branches false ["h1:b1"] in
   raise ValueError_substring_not_found) world0.
Proof.
  apply (X9_push_malformed_mapping false ["h1:b1"] "oops" ["h3:b3"] world0).
  reflexivity.
Defined.

(** ** More on the merge base *)

Lemma rfind_split (c : ascii) (s : string) :
  PyStr.find c s = None \/
  exists q b, s = q +:+ String c b /\ PyStr.find c b = None.
Proof.
  induction s as [|a s [IH|(q & b & -> & Hb)]].
  - by left.
  - destruct (Ascii.eqb_spec a c) as [->|Hne].
    + right. by exists EmptyString, s.
    + left. cbn [PyStr.find].
      destruct (Ascii.eqb_spec a c); [done|]. by rewrite IH.
  - right. by exists (String a q), b.
Qed.

Lemma merge_base_branch_split (remote : string) :
  exists p,
    remote = p +:+ merge_base_branch remote /\
    PyStr.find "/" (merge_base_branch remote) = None /\
    (p = EmptyString \/ exists q, p = q +:+ "/").
Proof.
  unfold merge_base_branch.
  destruct (rfind_split "/" remote) as [Hno|(q & b & -> & Hb)].
  - exists EmptyString. rewrite (rfind_absent _ _ Hno). cbn [Z.eqb negb].
    split_and!; [done|done|by left].
  - exists (q +:+ "/"). rewrite (rfind_last _ q _ Hb). cbv zeta.
    destruct (Z.eqb_spec (Z.of_nat (String.length q)) (-1)); [lia|].
    cbn [negb].
    replace (Z.to_nat (Z.of_nat (String.length q) + 1))
      with (String.length q + 1) by lia.
    rewrite drop_past. split_and!; [apply app_String | done | eauto].
Qed.

(** X10: in the merge-base case the branch name put into the query never
    holds a [/]: the remote ref is always a prefix that is empty or ends
    in [/], followed by that branch name (which is empty when the ref ends
    in [/]).  The case makes exactly one subprocess call, the
    [hg log -T {node} -r ancestor(., <branch>)] query; the [HEAD] token is
    not resolved and elements after it are not looked at. *)
Theorem X10_merge_base_branch
  (self : EdenShell) (args : list string) (kwargs : Kwargs) (w : world) :
  match_args merge_base_pattern args = Ok true ->
  exists p branch,
    args !! 1 = Some (p +:+ branch) /\
    PyStr.find "/" branch = None /\
    (p = EmptyString \/ exists q, p = q +:+ "/") /\
    calls (snd (git self args kwargs w)) =
      calls w ++
        [eden_call (os_environ w)
           ["log"; "-T"; "{node}"; "-r"; "ancestor(., " +:+ branch +:+ ")"]].
Proof.
  intros Hm. destruct (match_merge_base_inv _ Hm) as (remote & rest & ->).
  destruct (merge_base_branch_split remote) as (p & Hsplit & Hno & Hp).
  exists p, (merge_base_branch remote). split_and!; try done.
  - cbn [lookup list_lookup]. by rewrite <- Hsplit.
  - rewrite git_merge_base_eq. unfold bind.
    rewrite run_eden_command_unfold. cbv zeta.
    by destruct (respond w (calls w) _).
Qed.

Lemma X10_merge_base_branch_witness :
  exists p branch,
    Some "origin/feature/x" = Some (p +:+ branch) /\
    PyStr.find "/" branch = None /\
    (p = EmptyString \/ exists q, p = q +:+ "/") /\
    calls (snd (git self0 ["merge-base"; "origin/feature/x"; "HEAD"; "-a"]
                  kwargs0 world0)) =
      calls world0 ++
        [eden_call (os_environ world0)
           ["log"; "-T"; "{node}"; "-r"; "ancestor(., " +:+ branch +:+ ")"]].
Proof.
  apply (X10_merge_base_branch
           self0 ["merge-base"; "origin/feature/x"; "HEAD"; "-a"]
           kwargs0 world0).
  reflexivity.
Defined.

(** ** More on the default case *)

Lemma spec_replace_HEAD_length (top : string) (args : list string) :
  length (spec_replace_HEAD top args) = length args.
Proof. unfold spec_replace_HEAD. apply length_map. Qed.

Lemma spec_replace_HEAD_clean (top : string) (args : list string) :
  top <> "HEAD" -> "HEAD" ∉ spec_replace_HEAD top args.
Proof.
  intros Htop. induction args as [|a args IH];
    cbn [spec_replace_HEAD map]; [apply not_elem_of_nil|].
  apply not_elem_of_cons. split; [|done].
  destruct (decide (a = "HEAD")); congruence.
Qed.

(** X11: when the list holds a [HEAD] token and the tip query answers
    with an identifier other than the text [HEAD], the rewritten list has
    the length of the original and no [HEAD] token left: rewriting it once
    more returns it as it is, without another query. *)
Theorem X11_rewrite_resolves_every_HEAD
  (args : list string) (top : string) (w w1 : world) :
  "HEAD" ∈ args ->
  _run_eden_command tip_query w = (Ok top, w1) ->
  top <> "HEAD" ->
  exists args',
    _rewrite_args args w = (Ok args', w1) /\
    length args' = length args /\
    ("HEAD" ∉ args') /\
    forall w2, _rewrite_args args' w2 = (Ok args', w2).
Proof.
  intros Hin Htip Htop. exists (spec_replace_HEAD top args).
  split_and!.
  - unfold _rewrite_args. rewrite existsb_HEAD, bool_decide_eq_true_2 by done.
    fold tip_query. rewrite (bind_ok _ _ _ _ _ Htip).
    by rewrite rewrite_loop_spec.
  - apply spec_replace_HEAD_length.
  - by apply spec_replace_HEAD_clean.
  - intros w2. apply rewrite_args_no_HEAD.
    rewrite existsb_HEAD. apply bool_decide_eq_false_2.
    by apply spec_replace_HEAD_clean.
Qed.

Lemma X11_rewrite_resolves_every_HEAD_witness :
  exists args',
    _rewrite_args ["diff"; "HEAD"; "HEAD~1"] world0 =
      (Ok args', snd (_run_eden_command tip_query world0)) /\
    length args' = 3 /\
    ("HEAD" ∉ args') /\
    forall w2, _rewrite_args args' w2 = (Ok args', w2).
Proof.
  apply (X11_rewrite_resolves_every_HEAD
           ["diff"; "HEAD"; "HEAD~1"] "f00d" world0
           (snd (_run_eden_command tip_query world0))).
  - apply elem_of_cons. right. apply elem_of_cons. by left.
  - reflexivity.
  - discriminate.
Defined.

(** X12: in the default case, when the list holds a [HEAD] token and the
    tip query fails, [git] raises the failure of that query; the query is
    the only subprocess call made, [git] itself is not run. *)
Theorem X12_tip_query_failure
  (self : EdenShell) (args : list string) (kwargs : Kwargs) (w : world) :
  falls_through self args ->
  "HEAD" ∈ args ->
  respond w (calls w) (eden_call (os_environ w) tip_query) = None ->
  fst (git self args kwargs w) =
    Raise (CalledProcessError (EDEN_CLI :: tip_query)) /\
  calls (snd (git self args kwargs w)) =
    calls w ++ [eden_call (os_environ w) tip_query].
Proof.
  intros Hdef Hin Hfail. rewrite (git_default _ _ _ _ Hdef).
  unfold git_pass_through, _rewrite_args.
  rewrite existsb_HEAD, bool_decide_eq_true_2 by done. fold tip_query.
  unfold bind. rewrite run_eden_command_unfold. cbv zeta.
  by rewrite Hfail.
Qed.

Lemma X12_tip_query_failure_witness :
  fst (git self0 ["log"; "HEAD"] kwargs0 world_failing) =
    Raise (CalledProcessError (EDEN_CLI :: tip_query)) /\
  calls (snd (git self0 ["log"; "HEAD"] kwargs0 world_failing)) =
    calls world_failing ++ [eden_call (os_environ world_failing) tip_query].
Proof.
  apply (X12_tip_query_failure self0 ["log"; "HEAD"] kwargs0 world_failing).
  - unfold falls_through. split_and!; reflexivity.
  - apply elem_of_cons. right. apply elem_of_cons. by left.
  - reflexivity.
Defined.

(** X13: in the fetch case the resolved URL goes through the [HEAD]
    rewrite like any other element: when the backing tool reports the
    default path as the text [HEAD], [git] asks for the tip and fetches
    from the tip identifier instead of the URL. *)
Theorem X13_fetch_url_named_HEAD
  (self : EdenShell) (kwargs : Kwargs) (w w1 : world) :
  _get_origin w = (Ok "HEAD", w1) ->
  git self ["fetch"; "--prune"; remote_name (conf self)] kwargs w =
  (let! top := _run_eden_command tip_query in
   Shell_git ["--git-dir"; git_dir self; "fetch"; "--prune"; top;
              "+refs/heads/*:refs/remotes/origin/*"] kwargs) w1.
Proof.
  intros Hurl. rewrite git_fetch_eq, (bind_ok _ _ _ _ _ Hurl).
  unfold git_pass_through, _rewrite_args.
  change (existsb (String.eqb "HEAD")
            ["fetch"; "--prune"; "HEAD";
             "+refs/heads/*:refs/remotes/origin/*"]) with true.
  cbv iota. fold tip_query. rewrite bind_assoc.
  apply bind_ext. intros top w2. reflexivity.
Qed.

Lemma X13_fetch_url_named_HEAD_witness :
  git self0 ["fetch"; "--prune"; "origin"] kwargs0 world_HEAD_path =
  (let! top := _run_eden_command tip_query in
   Shell_git ["--git-dir"; "/repo/.git"; "fetch"; "--prune"; top;
              "+refs/heads/*:refs/remotes/origin/*"] kwargs0)
    (snd (_get_origin world_HEAD_path)).
Proof.
  apply (X13_fetch_url_named_HEAD self0 kwargs0 world_HEAD_path
           (snd (_get_origin world_HEAD_path))).
  reflexivity.
Defined.

(** ** Construction *)

(** X14: [__init__] makes exactly one subprocess call, the [debugshell]
    introspection command with the plain-output environment.  When that
    process fails no shell is constructed: the failure is raised.
    Otherwise the shell keeps the configuration it was given and its
    repository handle is the trimmed output of the command. *)
Theorem X14_init (conf : Config) (w : world) :
  let c := eden_call (os_environ w) gitdir_query in
  calls (snd (__init__ conf w)) = calls w ++ [c] /\
  os_environ (snd (__init__ conf w)) = os_environ w /\
  fst (__init__ conf w) =
    match respond w (calls w) c with
    | Some out => Ok (MkEdenShell conf (_maybe_rstrip out))
    | None => Raise (CalledProcessError (EDEN_CLI :: gitdir_query))
    end.
Proof.
  cbv zeta. unfold __init__, bind. fold gitdir_query.
  rewrite run_eden_command_unfold. cbv zeta.
  by destruct (respond w (calls w) _).
Qed.

(** ** Patterns of literals *)

Lemma match_args_loop_literals (lits args : list string) :
  length lits <= length args ->
  match_args_loop (map PyStr_ lits) args = Ok true <->
  exists rest, args = lits ++ rest.
Proof.
  revert args. induction lits as [|l lits IH]; intros args Hlen.
  - split; [by exists args | done].
  - destruct args as [|a args]; simpl in Hlen; [lia|].
    cbn [map match_args_loop is_WILDCARD_ARG].
    destruct (String.eqb_spec l a) as [->|Hne]; cbn [negb].
    + rewrite IH by lia. split; intros [rest Hrest]; exists rest.
      * by rewrite Hrest.
      * by injection Hrest.
    + split; [done|]. intros [rest Hrest]. by injection Hrest.
Qed.

(** X15: a pattern made of literal strings only, as the resolve-remote-URL,
    fetch and push patterns are, matches exactly the argument lists that
    start with those strings, and [match_args] returns false on all
    others. *)
Theorem X15_literal_pattern_is_prefix (lits args : list string) :
  (match_args (map PyStr_ lits) args = Ok true <->
   exists rest, args = lits ++ rest) /\
  (match_args (map PyStr_ lits) args = Ok false <->
   ~ exists rest, args = lits ++ rest).
Proof.
  assert (exists b, match_args (map PyStr_ lits) args = Ok b) as [b Hb].
  { apply match_args_bool. induction lits as [|l lits IH];
      [apply Forall_nil_2|]. apply Forall_cons_2; [apply literal_known|done]. }
  assert (match_args (map PyStr_ lits) args = Ok true <->
          exists rest, args = lits ++ rest) as Hiff.
  { destruct (Nat.le_gt_cases (length lits) (length args)) as [Hle|Hgt].
    - rewrite match_args_long by (by rewrite length_map).
      by apply match_args_loop_literals.
    - rewrite match_args_short by (by rewrite length_map).
      split; [done|]. intros [rest ->]. rewrite length_app in Hgt. lia. }
  split; [done|]. rewrite <- Hiff, Hb. destruct b; split; congruence.
Qed.

Lemma X15_literal_pattern_is_prefix_witness :
  match_args (map PyStr_ ["push"; "origin"]) ["push"; "origin"; "h1:b1"] =
  Ok true.
Proof.
  apply (proj1 (X15_literal_pattern_is_prefix
                  ["push"; "origin"] ["push"; "origin"; "h1:b1"])).
  by exists ["h1:b1"].
Defined.

(** ** The trace of a successful push *)

Lemma push_branch_ok arg w out w1 :
  push_branch arg w = (Ok out, w1) ->
  PyStr.find ":" arg <> None /\
  calls w1 = calls w ++ push_calls (os_environ w) arg /\
  os_environ w1 = os_environ w.
Proof.
  unfold push_branch, str_index, push_calls.
  destruct (PyStr.find ":" arg) as [split_point|]; [|done].
  rewrite bind_ret. cbv zeta. unfold bind.
  rewrite run_eden_command_unfold. cbv zeta.
  destruct (respond w (calls w) _); [|done].
  rewrite run_eden_command_unfold. cbn [os_environ calls respond].
  destruct (respond w _ _); [|done].
  intros [= _ <-]. cbn [calls os_environ]. by rewrite <- app_assoc.
Qed.

Lemma push_branches_loop_ok branch_args last_result w r w1 :
  push_branches_loop branch_args last_result w = (Ok r, w1) ->
  Forall (fun arg => PyStr.find ":" arg <> None) branch_args /\
  calls w1 = calls w ++ flat_map (push_calls (os_environ w)) branch_args /\
  os_environ w1 = os_environ w.
Proof.
  revert last_result w.
  induction branch_args as [|arg branch_args IH]; intros last_result w.
  - intros [= _ <-]. cbn [flat_map]. rewrite app_nil_r.
    split_and!; [apply Forall_nil_2 | done | done].
  - cbn [push_branches_loop flat_map]. unfold bind.
    destruct (push_branch arg w) as [[out|e] w2] eqn:Hone; [|done].
    destruct (push_branch_ok _ _ _ _ Hone) as (Hcolon & Hcalls & Henv).
    intros Hrest. destruct (IH _ _ Hrest) as (Hall & Hcalls' & Henv').
    split_and!.
    + by apply Forall_cons_2.
    + by rewrite Hcalls', Hcalls, Henv, app_assoc.
    + congruence.
Qed.

Lemma push_branches_loop_some branch_args out w r w1 :
  push_branches_loop branch_args (Some out) w = (Ok r, w1) -> r <> None.
Proof.
  revert out w. induction branch_args as [|arg branch_args IH]; intros out w.
  - by intros [= <- _].
  - cbn [push_branches_loop]. unfold bind.
    destruct (push_branch arg w) as [[out'|e] w2]; [|done]. apply IH.
Qed.

(** X16: when a push returns without raising, every mapping held a [:]
    and the subprocess calls made are, for each mapping in order, the pull
    of its commit and then the forced push of that commit to its branch,
    and nothing else. *)
Theorem X16_push_success_trace
  (is_force : bool) (branch_args : list string) (w w1 : world)
  (r : shell_ret) :
  _push_branches is_force branch_args w = (Ok r, w1) ->
  Forall (fun arg => PyStr.find ":" arg <> None) branch_args /\
  calls w1 = calls w ++ flat_map (push_calls (os_environ w)) branch_args /\
  os_environ w1 = os_environ w /\
  (branch_args = [] <-> r = None).
Proof.
  intros Hok. unfold _push_branches in Hok.
  destruct (push_branches_loop_ok _ _ _ _ _ Hok) as (Hall & Hcalls & Henv).
  split_and!; try done. split.
  - intros ->. by injection Hok as <- _.
  - intros ->. destruct branch_args as [|arg branch_args]; [done|].
    exfalso. cbn [push_branches_loop] in Hok. unfold bind in Hok.
    destruct (push_branch arg w) as [[out|e] w2]; [|done].
    by apply push_branches_loop_some in Hok.
Qed.

Lemma X16_push_success_trace_witness :
  Forall (fun arg => PyStr.find ":" arg <> None)
    ["h1:refs/heads/b1"; "h2:b2"] /\
  calls (snd (_push_branches false ["h1:refs/heads/b1"; "h2:b2"] world0)) =
    calls world0 ++
      flat_map (push_calls (os_environ world0))
        ["h1:refs/heads/b1"; "h2:b2"] /\
  os_environ (snd (_push_branches false ["h1:refs/heads/b1"; "h2:b2"] world0))
    = os_environ world0 /\
  (["h1:refs/heads/b1"; "h2:b2"] = [] <-> Some "pushed" = None).
Proof.
  apply (X16_push_success_trace false ["h1:refs/heads/b1"; "h2:b2"] world0
           (snd (_push_branches false ["h1:refs/heads/b1"; "h2:b2"] world0))
           (Some "pushed")).
  vm_compute. reflexivity.
Defined.

(** ** When the default case is taken *)

(** X17: the default case is taken exactly by the argument lists that do
    not start with [remote get-url <remote_name>], [fetch --prune
    <remote_name>] or [push <remote_name>] and are not of the form
    [merge-base <ref> HEAD ...]; a push to any other remote name, for
    one, is handed to [git] untranslated. *)
Theorem X17_default_case_taken (self : EdenShell) (args : list string) :
  falls_through self args <->
  (forall rest,
     args <> "remote" :: "get-url" :: remote_name (conf self) :: rest) /\
  (forall rest,
     args <> "fetch" :: "--prune" :: remote_name (conf self) :: rest) /\
  (forall remote rest, args <> "merge-base" :: remote :: "HEAD" :: rest) /\
  (forall rest, args <> "push" :: remote_name (conf self) :: rest).
Proof.
  split.
  - intros (H1 & H2 & H3 & H4). split_and!.
    + intros rest ->. by rewrite match_remote_intro in H1.
    + intros rest ->. by rewrite match_fetch_intro in H2.
    + intros remote rest ->. by rewrite match_merge_base_intro in H3.
    + intros rest ->. by rewrite match_push_intro in H4.
  - intros (N1 & N2 & N3 & N4).
    destruct (git_dispatch self args)
      as [[rest ->]|[[rest ->]|[(remote & rest & ->)|[[rest ->]|Hdef]]]];
      [by destruct (N1 rest) | by destruct (N2 rest)
       | by destruct (N3 remote rest) | by destruct (N4 rest) | done].
Qed.

Lemma X17_default_case_taken_witness :
  git self0 ["push"; "upstream"; "h1:b1"] kwargs0 world0 =
  Shell_git ["--git-dir"; "/repo/.git"; "push"; "upstream"; "h1:b1"]
    kwargs0 world0.
Proof.
  rewrite (git_default self0 ["push"; "upstream"; "h1:b1"] kwargs0 world0).
  - reflexivity.
  - apply (proj2 (X17_default_case_taken self0 ["push"; "upstream"; "h1:b1"])).
    split_and!; intros; discriminate.
Defined.
